(** * Restaurant Manager PWA: the service worker and the page-level API helper

    A shallow embedding of [static/sw.js] (cache proxy: install, activate and
    fetch handlers with their three strategies) and of [static/js/app.js]:
    the [api] helper, [formatTime], the navigation highlight, the
    auto-refresh timer, [debounce], the theme toggle and [promptInstall].
    Timers are modelled by their table of live timers and the ids handed
    out; the DOM by the attributes and class lists the code reads and writes.

    Asynchronous code is embedded as state passing with exceptions: an
    [await] is a bind, a rejected promise is a thrown exception, [try/catch]
    is [try_catch].  Every call into the hosting environment (network, cache
    storage, console, DOM) appends an event to a trace, so that "no fetch
    happened" or "nothing was written" are statements about the trace.

    The environment is idealised where the source relies on it silently:
    - [fetch] is a function of the request ([None] when the promise rejects);
    - the cache storage is a key-value store keyed by method and URL
      (requests are modelled without headers, so the [Vary] list of a
      stored response never excludes a request at lookup);
      [cache.put] and [cache.add] refuse what the Cache API refuses (a URL
      that is not http(s), a method other than GET, a 206 response, a
      response with [Vary: *]), and a write that is not awaited has taken
      place by the time the function returns;
    - promises started together ([Promise.all], [Promise.allSettled]) are run
      one after the other in list order. *)

From stdpp Require Import gmap strings list fin_maps pretty.
From Stdlib Require Import String Ascii ZArith Lia Bool Btauto.

#[local] Open Scope string_scope.

(** ** JavaScript runtime: exceptions, promises as a state monad, JSON *)

Module JS.

Inductive Exn : Type :=
| TypeError (message : string)
| SyntaxError (message : string)
| Error (message : string).

Inductive Result (A : Type) : Type :=
| Ok (value : A)
| Throw (e : Exn).
Arguments Ok {A} value.
Arguments Throw {A} e.

(** A computation over a world [W]: the world keeps every effect performed
    before an exception is thrown. *)
Definition M (W A : Type) : Type := W -> Result A * W.

Definition ret {W A} (a : A) : M W A := fun w => (Ok a, w).

Definition bind {W A B} (m : M W A) (k : A -> M W B) : M W B :=
  fun w =>
    match m w with
    | (Ok a, w') => k a w'
    | (Throw e, w') => (Throw e, w')
    end.

Definition throw {W A} (e : Exn) : M W A := fun w => (Throw e, w).

(** [try { body } catch (error) { handler }] and [promise.catch(handler)]. *)
Definition try_catch {W A} (body : M W A) (handler : Exn -> M W A) : M W A :=
  fun w =>
    match body w with
    | (Ok a, w') => (Ok a, w')
    | (Throw e, w') => handler e w'
    end.

(** A promise that is started and never awaited: its effects take place,
    its value and its rejection are dropped. *)
Definition not_awaited {W A} (m : M W A) : M W unit :=
  fun w => (Ok tt, snd (m w)).

(** Outcome of a settled promise, as [Promise.allSettled] reports it. *)
Inductive Settled (A : Type) : Type :=
| Fulfilled (value : A)
| Rejected (reason : Exn).
Arguments Fulfilled {A} value.
Arguments Rejected {A} reason.

Definition settle {W A} (m : M W A) : M W (Settled A) :=
  fun w =>
    match m w with
    | (Ok a, w') => (Ok (Fulfilled a), w')
    | (Throw e, w') => (Ok (Rejected e), w')
    end.

Declare Scope js_scope.
Delimit Scope js_scope with js.
Notation "x <- c1 ;;; c2" := (bind c1 (fun x => c2))
  (at level 100, c1 at next level, right associativity) : js_scope.
Notation "c1 ;;; c2" := (bind c1 (fun _ => c2))
  (at level 100, right associativity) : js_scope.

#[local] Open Scope js_scope.

(** [Promise.allSettled(promises)]: never rejects. *)
Fixpoint allSettled {W A} (ps : list (M W A)) : M W (list (Settled A)) :=
  match ps with
  | [] => ret []
  | p :: ps' =>
      r <- settle p ;;;
      rs <- allSettled ps' ;;;
      ret (r :: rs)
  end.

(** [Promise.all(promises)]: every promise runs; the result rejects with the
    first rejection. *)
Fixpoint all {W A} (ps : list (M W A)) : M W (list A) :=
  match ps with
  | [] => ret []
  | p :: ps' =>
      fun w =>
        match p w with
        | (Ok a, w') =>
            match all ps' w' with
            | (Ok rest, w'') => (Ok (a :: rest), w'')
            | (Throw e, w'') => (Throw e, w'')
            end
        | (Throw e, w') => (Throw e, snd (all ps' w'))
        end
  end.

(** *** JSON values *)

(** A number, kept by what the code observes of it: its conversion to a
    string ([String(n)]), whether it is falsy ([0], [-0] or [NaN]) and
    whether it is finite. *)
Record Number : Type := mkNumber {
  number_string : string;
  number_falsy : bool;
  number_finite : bool
}.

#[local] Set Warnings "-register-all".

Inductive JSON : Type :=
| JNull
| JBool (b : bool)
| JNumber (n : Number)
| JString (s : string)
| JArray (items : list JSON)
| JObject (props : list (string * JSON)).

Definition dquote : string := String "034"%char EmptyString.
Definition backslash : string := String "092"%char EmptyString.

Definition hex_digit (n : nat) : ascii :=
  match String.get n "0123456789abcdef" with
  | Some c => c
  | None => "0"%char
  end.

Definition escape_char (c : ascii) : string :=
  let n := nat_of_ascii c in
  if Nat.eqb n 34 then backslash ++ dquote
  else if Nat.eqb n 92 then backslash ++ backslash
  else if Nat.eqb n 8 then backslash ++ "b"
  else if Nat.eqb n 12 then backslash ++ "f"
  else if Nat.eqb n 10 then backslash ++ "n"
  else if Nat.eqb n 13 then backslash ++ "r"
  else if Nat.eqb n 9 then backslash ++ "t"
  else if Nat.ltb n 32 then
    backslash ++ "u00" ++ String (hex_digit (n / 16)%nat) (String (hex_digit (n mod 16)%nat) "")
  else String c "".

Fixpoint escape (s : string) : string :=
  match s with
  | EmptyString => ""
  | String c s' => escape_char c ++ escape s'
  end.

Definition quote (s : string) : string := dquote ++ escape s ++ dquote.

(** [JSON.stringify(value)] without indentation. *)
Fixpoint stringify (v : JSON) : string :=
  match v with
  | JNull => "null"
  | JBool true => "true"
  | JBool false => "false"
  | JNumber n => if number_finite n then number_string n else "null"
  | JString s => quote s
  | JArray items => "[" ++ String.concat "," (List.map stringify items) ++ "]"
  | JObject props =>
      "{" ++ String.concat ","
               (List.map (fun p => quote (fst p) ++ ":" ++ stringify (snd p)) props)
          ++ "}"
  end.

(** Property read [value.name] on a parsed JSON value: [None] is
    [undefined]; reading a property of [null] throws. *)
Definition get_prop (v : JSON) (name : string) : Result (option JSON) :=
  match v with
  | JNull => Throw (TypeError ("Cannot read properties of null (reading '" ++ name ++ "')"))
  | JObject props =>
      Ok (snd <$> List.find (fun p => String.eqb (fst p) name) props)
  | _ => Ok None
  end.

(** Truthiness of a value that may be [undefined]. *)
Definition truthy (v : option JSON) : bool :=
  match v with
  | None => false
  | Some JNull => false
  | Some (JBool b) => b
  | Some (JNumber n) => negb (number_falsy n)
  | Some (JString s) => negb (String.eqb s "")
  | Some (JArray _) => true
  | Some (JObject _) => true
  end.

(** [a || b]. *)
Definition or_else (a b : option JSON) : option JSON :=
  if truthy a then a else b.

(** [String(value)], the conversion applied by [new Error(message)]. *)
Fixpoint to_string (v : JSON) : string :=
  match v with
  | JNull => "null"
  | JBool true => "true"
  | JBool false => "false"
  | JNumber n => number_string n
  | JString s => s
  | JArray items =>
      String.concat ","
        (List.map (fun x => match x with JNull => "" | _ => to_string x end) items)
  | JObject _ => "[object Object]"
  end.

End JS.

(** ** Regular expressions without repetition, as [isStaticAsset] uses them *)

Module Regex.

Inductive regex : Type :=
| Lit (s : string)          (* the characters of [s], in order *)
| Alt (r1 r2 : regex)       (* r1|r2 *)
| Cat (r1 r2 : regex)       (* r1r2 *)
| Opt (r : regex)           (* r? *)
| Eos.                      (* $ (no multiline flag: end of input) *)

(** [strip_prefix p s]: the rest of [s] after its prefix [p]. *)
Fixpoint strip_prefix (p s : string) : option string :=
  match p with
  | EmptyString => Some s
  | String a p' =>
      match s with
      | EmptyString => None
      | String b s' => if Ascii.eqb a b then strip_prefix p' s' else None
      end
  end.

(** Backtracking matcher: [r] matches at the head of [s] and the
    continuation accepts what is left. *)
Fixpoint match_at (r : regex) (s : string) (k : string -> bool) : bool :=
  match r with
  | Lit l => match strip_prefix l s with Some rest => k rest | None => false end
  | Alt r1 r2 => match_at r1 s k || match_at r2 s k
  | Cat r1 r2 => match_at r1 s (fun rest => match_at r2 rest k)
  | Opt r1 => match_at r1 s k || k s
  | Eos => match s with EmptyString => k s | String _ _ => false end
  end.

(** [regex.test(s)]: a match starting at some position of [s]. *)
Fixpoint test (r : regex) (s : string) : bool :=
  match_at r s (fun _ => true)
  || match s with EmptyString => false | String _ s' => test r s' end.

(** A regex without repetition denotes finitely many paths: sequences of
    literal chunks and end-of-input checks. *)
Inductive item : Type :=
| Chars (s : string)
| End.

Fixpoint paths (r : regex) : list (list item) :=
  match r with
  | Lit l => [[Chars l]]
  | Alt r1 r2 => (paths r1 ++ paths r2)%list
  | Cat r1 r2 => List.flat_map (fun p => List.map (fun q => (p ++ q)%list) (paths r2)) (paths r1)
  | Opt r1 => (paths r1 ++ [[]])%list
  | Eos => [[End]]
  end.

Fixpoint match_path (p : list item) (s : string) (k : string -> bool) : bool :=
  match p with
  | [] => k s
  | Chars l :: p' =>
      match strip_prefix l s with Some rest => match_path p' rest k | None => false end
  | End :: p' =>
      match s with EmptyString => match_path p' s k | String _ _ => false end
  end.

(** [ends_with suffix s]: [s.endsWith(suffix)] *)
Fixpoint ends_with (suffix s : string) : bool :=
  String.eqb s suffix
  || match s with EmptyString => false | String _ s' => ends_with suffix s' end.

End Regex.

(** ** static/sw.js *)

Module SW.
Import JS Regex.
#[local] Open Scope js_scope.

Record URL : Type := mkURL { origin : string; pathname : string; search : string }.

Record Request : Type := mkRequest { method : string; url : URL; mode : string }.

Record Response : Type := mkResponse {
  body : string;
  status : nat;
  statusText : string;
  headers : list (string * string)
}.

(** [response.ok] *)
Definition ok (r : Response) : bool := Nat.leb 200 (status r) && Nat.leb (status r) 299.

(** [response.clone()] *)
Definition clone (r : Response) : Response := r.

(** *** What the Cache API checks before it stores a response *)

(** Header names compare without regard to case. *)
Definition lower (c : ascii) : ascii :=
  let n := nat_of_ascii c in
  if Nat.leb 65 n && Nat.leb n 90 then ascii_of_nat (n + 32) else c.

Fixpoint lowercase (s : string) : string :=
  match s with
  | EmptyString => ""
  | String c s' => String (lower c) (lowercase s')
  end.

(** The comma-separated items of a header value. *)
Fixpoint split_commas (s : string) : list string :=
  match s with
  | EmptyString => [""]
  | String c s' =>
      if Ascii.eqb c ","%char then "" :: split_commas s'
      else
        match split_commas s' with
        | item :: items => String c item :: items
        | [] => [String c ""]
        end
  end.

(** Space and tab around an item do not count. *)
Definition is_space (c : ascii) : bool := Ascii.eqb c " "%char || Ascii.eqb c "009"%char.

Fixpoint trim_left (s : string) : string :=
  match s with
  | EmptyString => ""
  | String c s' => if is_space c then trim_left s' else s
  end.

Fixpoint trim_right (s : string) : string :=
  match s with
  | EmptyString => ""
  | String c s' =>
      let t := trim_right s' in
      if is_space c && String.eqb t "" then "" else String c t
  end.

Definition trim (s : string) : string := trim_right (trim_left s).

(** The field values of the [Vary] headers of a response. *)
Definition vary_values (r : Response) : list string :=
  List.flat_map
    (fun h =>
       if String.eqb (lowercase (fst h)) "vary"
       then List.map trim (split_commas (snd h))
       else [])
    (headers r).

Definition vary_star (r : Response) : bool := existsb (String.eqb "*") (vary_values r).

Definition partial_content (r : Response) : bool := Nat.eqb (status r) 206.

Definition href (u : URL) : string := origin u ++ pathname u ++ search u.

(** The URL's scheme is [http] or [https] (the origin begins with it), as
    it is for every request of a service worker's own origin. *)
Definition http_origin (o : string) : bool :=
  String.prefix "http://" o || String.prefix "https://" o.

Definition http_scheme (u : URL) : bool := http_origin (origin u).

(** [cache.put(request, response)] rejects, and stores nothing, unless the
    URL is http(s), the method is GET, the status is not 206 and no [Vary]
    header holds [*]. *)
Definition put_accepts (request : Request) (response : Response) : bool :=
  http_scheme (url request)
  && String.eqb (method request) "GET"
  && negb (partial_content response)
  && negb (vary_star response).

(** [cache.add(url)] stores the fetched response when it is ok, not a 206
    and without [Vary: *]. *)
Definition add_accepts (response : Response) : bool :=
  ok response && negb (partial_content response) && negb (vary_star response).

(** A cache entry is keyed by the request: method and URL. *)
Definition key_of (request : Request) : string * string :=
  (method request, href (url request)).

Abbreviation Cache := (gmap (string * string) Response).

(** The stores of [caches], in creation order. *)
Abbreviation CacheStorage := (list (string * Cache)).

Inductive Event : Type :=
| EvFetch (request : Request)
| EvMatch (request : Request)
| EvOpen (name : string)
| EvPut (name : string) (request : Request) (response : Response)
| EvKeys
| EvDelete (name : string)
| EvWarn (message : string) (err : Exn)
| EvLog (message : string)
| EvSkipWaiting
| EvClientsClaim.

Record World : Type := mkWorld { storage : CacheStorage; trace : list Event }.

Definition emit (e : Event) (w : World) : World :=
  {| storage := storage w; trace := trace w ++ [e] |}.

Definition names (s : CacheStorage) : list string := List.map fst s.

Definition has_cache (name : string) (s : CacheStorage) : bool :=
  existsb (String.eqb name) (names s).

(** First store, in creation order, holding an entry for the key. *)
Fixpoint storage_match (k : string * string) (s : CacheStorage) : option Response :=
  match s with
  | [] => None
  | (_, c) :: s' =>
      match c !! k with
      | Some r => Some r
      | None => storage_match k s'
      end
  end.

(** The entry for the key in the store of that name. *)
Definition storage_lookup (name : string) (k : string * string) (s : CacheStorage)
    : option Response :=
  match List.find (fun e => String.eqb (fst e) name) s with
  | Some (_, c) => c !! k
  | None => None
  end.

Definition storage_open (name : string) (s : CacheStorage) : CacheStorage :=
  if has_cache name s then s else s ++ [(name, ∅)].

(** A write through a handle of a store that was deleted meanwhile is not
    visible in the storage. *)
Definition storage_put (name : string) (k : string * string) (r : Response)
    (s : CacheStorage) : CacheStorage :=
  List.map (fun e => if String.eqb (fst e) name then (fst e, <[k := r]> (snd e)) else e) s.

Definition storage_delete (name : string) (s : CacheStorage) : CacheStorage :=
  List.filter (fun e => negb (String.eqb (fst e) name)) s.

Definition CACHE_NAME : string := "restaurant-manager-v1".

(** Static assets to pre-cache during installation. *)
Definition PRECACHE_URLS : list string :=
  [ "/";
    "/tables";
    "/menu";
    "/orders";
    "/static/css/style.css";
    "/static/js/app.js";
    "/static/manifest.json";
    "/static/icons/icon-192.png";
    "/static/icons/icon-512.png" ].

(** Offline fallback HTML served when both network and cache miss on a
    navigation request. *)
Definition newline : string := String "010"%char EmptyString.

Definition OFFLINE_HTML : string :=
  String.concat newline
  [ "<!DOCTYPE html>";
    "<html lang=" ++ dquote ++ "en" ++ dquote ++ ">";
    "<head>";
    "  <meta charset=" ++ dquote ++ "UTF-8" ++ dquote ++ ">";
    "  <meta name=" ++ dquote ++ "viewport" ++ dquote ++ " content=" ++ dquote ++ "width=device-width, initial-scale=1.0" ++ dquote ++ ">";
    "  <title>Offline - Restaurant Manager</title>";
    "  <style>";
    "    * { margin: 0; padding: 0; box-sizing: border-box; }";
    "    body {";
    "      font-family: -apple-system, BlinkMacSystemFont, " ++ dquote ++ "Segoe UI" ++ dquote ++ ", Roboto, sans-serif;";
    "      background: #f5f6fa;";
    "      color: #2c3e50;";
    "      display: flex;";
    "      justify-content: center;";
    "      align-items: center;";
    "      min-height: 100vh;";
    "      text-align: center;";
    "      padding: 2rem;";
    "    }";
    "    .offline-container { max-width: 420px; }";
    "    .offline-icon {";
    "      font-size: 4rem;";
    "      margin-bottom: 1.5rem;";
    "      opacity: 0.6;";
    "    }";
    "    h1 { font-size: 1.6rem; margin-bottom: 0.75rem; }";
    "    p { color: #95a5a6; line-height: 1.6; margin-bottom: 1.5rem; }";
    "    button {";
    "      padding: 0.7rem 2rem;";
    "      background: #FF6B35;";
    "      color: #fff;";
    "      border: none;";
    "      border-radius: 6px;";
    "      font-size: 1rem;";
    "      cursor: pointer;";
    "      transition: opacity 0.2s;";
    "    }";
    "    button:hover { opacity: 0.85; }";
    "  </style>";
    "</head>";
    "<body>";
    "  <div class=" ++ dquote ++ "offline-container" ++ dquote ++ ">";
    "    <div class=" ++ dquote ++ "offline-icon" ++ dquote ++ ">&#x1F50C;</div>";
    "    <h1>You're Offline</h1>";
    "    <p>";
    "      It looks like you've lost your internet connection.";
    "      Some features may be unavailable until you reconnect.";
    "    </p>";
    "    <button onclick=" ++ dquote ++ "window.location.reload()" ++ dquote ++ ">Try Again</button>";
    "  </div>";
    "</body>";
    "</html>" ].

(** [/\.(?:css|js|png|jpg|jpeg|gif|svg|ico|woff2?|ttf|eot)$/] *)
Definition STATIC_ASSET_RE : regex :=
  Cat (Lit ".")
    (Cat
       (Alt (Lit "css") (Alt (Lit "js") (Alt (Lit "png") (Alt (Lit "jpg")
       (Alt (Lit "jpeg") (Alt (Lit "gif") (Alt (Lit "svg") (Alt (Lit "ico")
       (Alt (Cat (Lit "woff") (Opt (Lit "2"))) (Alt (Lit "ttf") (Lit "eot")))))))))))
       Eos).

(** Determine whether a URL path points to a static asset that benefits
    from cache-first loading. *)
Definition isStaticAsset (pathname : string) : bool := test STATIC_ASSET_RE pathname.

(** What the fetch event ends with: [event.respondWith] was not called
    (the browser handles the request itself, as without a service worker),
    or it was called with a response. *)
Inductive Outcome : Type :=
| Unhandled
| RespondedWith (response : Response).

Section Worker.

(** [self.location.origin] *)
Variable self_origin : string.

(** The network: [None] when [fetch] rejects. *)
Variable network : Request -> option Response.

Definition fetch (request : Request) : M World Response :=
  fun w =>
    match network request with
    | Some response => (Ok response, emit (EvFetch request) w)
    | None => (Throw (TypeError "Failed to fetch"), emit (EvFetch request) w)
    end.

Definition caches_match (request : Request) : M World (option Response) :=
  fun w => (Ok (storage_match (key_of request) (storage w)), emit (EvMatch request) w).

(** [caches.open(name)] creates the store when it is absent; the handle of
    a store is its name. *)
Definition caches_open (name : string) : M World string :=
  fun w =>
    (Ok name, {| storage := storage_open name (storage w);
                 trace := trace w ++ [EvOpen name] |}).

(** [cache.put(request, response)] as the Cache API defines it: the promise
    rejects with a [TypeError], and nothing is written, unless the cache
    accepts the pair. *)
Definition cache_put (cache : string) (request : Request) (response : Response)
    : M World unit :=
  fun w =>
    if put_accepts request response then
      (Ok tt, {| storage := storage_put cache (key_of request) response (storage w);
                 trace := trace w ++ [EvPut cache request response] |})
    else (Throw (TypeError "Cache.put: request or response is unsupported"),
          emit (EvPut cache request response) w).

(** [cache.add(url)] as the Cache API defines it: a GET request for the URL,
    resolved against the worker's origin; reject at once unless its scheme
    is http(s); fetch it; reject unless the response is ok, not a 206 and
    without [Vary: *]; store it. *)
Definition cache_add (cache : string) (path : string) : M World unit :=
  let request :=
    {| method := "GET";
       url := {| origin := self_origin; pathname := path; search := "" |};
       mode := "cors" |} in
  if negb (http_scheme (url request)) then
    throw (TypeError "Cache.add: request scheme is unsupported")
  else
    response <- fetch request ;;;
    if negb (ok response) || partial_content response then
      throw (TypeError "Cache.add: bad response status")
    else if vary_star response then throw (TypeError "Cache.add: Vary header contains *")
    else cache_put cache request response.

Definition caches_keys : M World (list string) :=
  fun w => (Ok (names (storage w)), emit EvKeys w).

Definition caches_delete (name : string) : M World bool :=
  fun w =>
    (Ok (has_cache name (storage w)),
     {| storage := storage_delete name (storage w);
        trace := trace w ++ [EvDelete name] |}).

Definition console_warn (message : string) (err : Exn) : M World unit :=
  fun w => (Ok tt, emit (EvWarn message err) w).

Definition console_log (message : string) : M World unit :=
  fun w => (Ok tt, emit (EvLog message) w).

Definition skipWaiting : M World unit := fun w => (Ok tt, emit EvSkipWaiting w).

Definition clients_claim : M World unit := fun w => (Ok tt, emit EvClientsClaim w).

(** *** Install event: pre-cache core assets *)

Definition onInstall : M World unit :=
  cache <- caches_open CACHE_NAME ;;;
  (* Use addAll with individual fallbacks so one 404 does not block install. *)
  allSettled
    (List.map
       (fun url =>
          try_catch (cache_add cache url)
            (fun err => console_warn ("[SW] Failed to pre-cache: " ++ url) err))
       PRECACHE_URLS) ;;;
  (* Immediately activate without waiting for open tabs to close. *)
  skipWaiting.

(** *** Activate event: clean up old caches *)

Definition onActivate : M World unit :=
  cacheNames <- caches_keys ;;;
  all
    (List.map
       (fun name =>
          console_log ("[SW] Deleting old cache: " ++ name) ;;;
          caches_delete name)
       (List.filter (fun name => negb (String.eqb name CACHE_NAME)) cacheNames)) ;;;
  (* Take control of all open clients immediately. *)
  clients_claim.

(** *** Strategy helpers *)

(** Cache-first strategy.  Return the cached response if available;
    otherwise fetch from the network, cache the result, and return it. *)
Definition cacheFirst (request : Request) : M World Response :=
  cachedResponse <- caches_match request ;;;
  match cachedResponse with
  | Some cached => ret cached
  | None =>
      try_catch
        (networkResponse <- fetch request ;;;
         (if ok networkResponse then
            cache <- caches_open CACHE_NAME ;;;
            not_awaited (cache_put cache request (clone networkResponse))
          else ret tt) ;;;
         ret networkResponse)
        (fun error =>
           (* If both cache and network fail, return a basic error response. *)
           ret (mkResponse "Offline — asset unavailable" 503 "Service Unavailable"
                  [("Content-Type", "text/plain")]))
  end.

(** Network-first strategy.  Try the network; on success, update the cache.
    On failure fall back to the cached version. *)
Definition networkFirst (request : Request) : M World Response :=
  try_catch
    (networkResponse <- fetch request ;;;
     (* Only cache GET requests. *)
     (if String.eqb (method request) "GET" && ok networkResponse then
        cache <- caches_open CACHE_NAME ;;;
        not_awaited (cache_put cache request (clone networkResponse))
      else ret tt) ;;;
     ret networkResponse)
    (fun error =>
       cachedResponse <- caches_match request ;;;
       match cachedResponse with
       | Some cached => ret cached
       | None =>
           (* Return a JSON error for API-like requests. *)
           ret (mkResponse
                  (stringify
                     (JObject
                        [("error",
                          JString "You are offline and no cached data is available.")]))
                  503 "Service Unavailable"
                  [("Content-Type", "application/json")])
       end).

(** Network-first strategy with an offline HTML fallback for navigation
    requests. *)
Definition networkFirstNavigation (request : Request) : M World Response :=
  try_catch
    (networkResponse <- fetch request ;;;
     (if ok networkResponse then
        cache <- caches_open CACHE_NAME ;;;
        not_awaited (cache_put cache request (clone networkResponse))
      else ret tt) ;;;
     ret networkResponse)
    (fun error =>
       (* Try to serve the cached version of the page. *)
       cachedResponse <- caches_match request ;;;
       match cachedResponse with
       | Some cached => ret cached
       | None =>
           (* Serve the inline offline fallback page. *)
           ret (mkResponse OFFLINE_HTML 503 "Service Unavailable"
                  [("Content-Type", "text/html")])
       end).

(** *** Fetch event: routing strategies *)

Definition respondWith (strategy : M World Response) : M World Outcome :=
  response <- strategy ;;;
  ret (RespondedWith response).

Definition onFetch (request : Request) : M World Outcome :=
  let url := url request in
  (* Only handle requests from our own origin. *)
  if negb (String.eqb (origin url) self_origin) then ret Unhandled
  (* API calls: network-first with cache fallback *)
  else if String.prefix "/api/" (pathname url) then respondWith (networkFirst request)
  (* Static assets: cache-first with network fallback *)
  else if isStaticAsset (pathname url) then respondWith (cacheFirst request)
  (* Navigation (HTML pages): network-first with offline fallback *)
  else if String.eqb (mode request) "navigate" then
    respondWith (networkFirstNavigation request)
  (* Default: network-first *)
  else respondWith (networkFirst request).

End Worker.

End SW.

(** ** static/js/app.js: the API helper *)

Module App.
Import JS.
#[local] Open Scope js_scope.

(** The [options] object handed to [fetch]. *)
Record RequestInit : Type := mkInit {
  method : string;
  headers : list (string * string);
  body : option string
}.

Record Response : Type := mkResponse { status : nat; text : string }.

(** [response.ok] *)
Definition ok (r : Response) : bool := Nat.leb 200 (status r) && Nat.leb (status r) 299.

Inductive Event : Type :=
| EvFetch (url : string) (options : RequestInit)
| EvToast (message : string) (type : string).

Abbreviation World := (list Event).

Section Page.

(** What [fetch] gives the page: [None] when the promise rejects. *)
Variable network : string -> RequestInit -> option Response.

(** [JSON.parse]: [None] when the text is not valid JSON. *)
Variable JSON_parse : string -> option JSON.

Definition fetch (url : string) (options : RequestInit) : M World Response :=
  fun w =>
    match network url options with
    | Some response => (Ok response, (w ++ [EvFetch url options])%list)
    | None => (Throw (TypeError "Failed to fetch"), (w ++ [EvFetch url options])%list)
    end.

(** [response.json()] *)
Definition json (response : Response) : M World JSON :=
  match JSON_parse (text response) with
  | Some data => ret data
  | None => throw (SyntaxError "Unexpected token in JSON")
  end.

(** [showToast(message, type)]: the DOM is outside the model, the call is
    recorded. *)
Definition showToast (message : string) (type : string) : M World unit :=
  fun w => (Ok tt, (w ++ [EvToast message type])%list).

(** [data.name], which throws when [data] is [null]. *)
Definition prop (data : JSON) (name : string) : M World (option JSON) :=
  fun w => (get_prop data name, w).

(** [a || literal] *)
Definition or_default (a : option JSON) (b : JSON) : JSON :=
  match a with
  | Some v => if truthy a then v else b
  | None => b
  end.

(** Perform an API call with automatic JSON handling.  [method] and [body]
    are [None] when the argument is left out ([method = 'GET'],
    [body = null]). *)
Definition api (url : string) (method : option string) (body : option JSON)
    : M World JSON :=
  let method := match method with Some m => m | None => "GET" end in
  let body := match body with Some b => b | None => JNull end in
  let options :=
    {| method := method;
       headers := [("Content-Type", "application/json"); ("Accept", "application/json")];
       body := match body with
               | JNull => None
               | _ => Some (stringify body)
               end |} in
  response <-
    try_catch (fetch url options)
      (fun networkError =>
         showToast "Network error. Please check your connection." "error" ;;;
         throw networkError) ;;;
  (* [inl v]: the catch block returned [v] from the function;
     [inr data]: the body parsed and the function goes on with [data]. *)
  parsed <-
    try_catch
      (data <- json response ;;; ret (inr data))
      (fun parseError =>
         if negb (ok response) then
           showToast "Something went wrong." "error" ;;;
           throw (Error ("HTTP " ++ pretty (status response) ++ ": Non-JSON response"))
         else ret (inl (JObject []))) ;;;
  match parsed with
  | inl early => ret early
  | inr data =>
      if negb (ok response) then
        error <- prop data "error" ;;;
        message <- (if truthy error then ret error else prop data "message") ;;;
        let message := or_default message (JString "Something went wrong.") in
        showToast (to_string message) "error" ;;;
        throw (Error (to_string message))
      else ret data
  end.

End Page.

End App.

(** ** The specification's own wording, to compare the code with *)

Module Spec.
Import JS Regex SW.

(** The fixed set of static-asset extensions. *)
Definition STATIC_EXTENSIONS : list string :=
  ["css"; "js"; "png"; "jpg"; "jpeg"; "gif"; "svg"; "ico"; "woff"; "woff2"; "ttf"; "eot"].

(** The path's extension is one of the fixed set. *)
Definition has_static_extension (pathname : string) : bool :=
  existsb (fun ext => ends_with ("." ++ ext) pathname) STATIC_EXTENSIONS.

Inductive RouteClass : Type :=
| ApiCall
| StaticAsset
| Navigation
| DefaultOther.

(** Classification of a same-origin request, in priority order. *)
Definition classify (request : Request) : RouteClass :=
  if String.prefix "/api/" (pathname (url request)) then ApiCall
  else if has_static_extension (pathname (url request)) then StaticAsset
  else if String.eqb (mode request) "navigate" then Navigation
  else DefaultOther.

Definition strategy_of (network : Request -> option Response) (c : RouteClass)
    : Request -> M World Response :=
  match c with
  | ApiCall => networkFirst network
  | StaticAsset => cacheFirst network
  | Navigation => networkFirstNavigation network
  | DefaultOther => networkFirst network
  end.

(** The three synthetic responses of section 6. *)
Definition asset_unavailable : Response :=
  SW.mkResponse "Offline — asset unavailable" 503 "Service Unavailable"
    [("Content-Type", "text/plain")].

Definition offline_json : Response :=
  SW.mkResponse
    ("{" ++ dquote ++ "error" ++ dquote ++ ":" ++ dquote
         ++ "You are offline and no cached data is available." ++ dquote ++ "}")
    503 "Service Unavailable" [("Content-Type", "application/json")].

Definition offline_page : Response :=
  SW.mkResponse OFFLINE_HTML 503 "Service Unavailable" [("Content-Type", "text/html")].

(** The request [cache.add] issues for a precache entry. *)
Definition precache_request (self_origin path : string) : Request :=
  {| SW.method := "GET";
     url := {| origin := self_origin; pathname := path; search := "" |};
     mode := "cors" |}.

(** What pre-caching one entry leaves in the trace: the fetch, then the
    write when [cache.add] accepts the response, a warning otherwise; only
    a warning when the scheme is not http(s). *)
Definition precache_events (self_origin : string) (network : Request -> option Response)
    (path : string) : list Event :=
  let request := precache_request self_origin path in
  let warn := EvWarn ("[SW] Failed to pre-cache: " ++ path) in
  if negb (http_scheme (url request)) then
    [warn (TypeError "Cache.add: request scheme is unsupported")]
  else
    SW.EvFetch request ::
    match network request with
    | Some response =>
        if negb (SW.ok response) || partial_content response then
          [warn (TypeError "Cache.add: bad response status")]
        else if vary_star response then
          [warn (TypeError "Cache.add: Vary header contains *")]
        else [EvPut CACHE_NAME request response]
    | None => [warn (TypeError "Failed to fetch")]
    end.

(** A message the server provided: the [error] or the [message] property of
    the parsed body. *)
Definition server_provided (data : JSON) (message : string) : Prop :=
  exists v, (get_prop data "error" = Ok (Some v) \/ get_prop data "message" = Ok (Some v))
            /\ to_string v = message.

End Spec.

(** ** Vocabulary of the statements: what a run leaves in the world *)

Module Facts.
Import JS Regex SW Spec.
#[local] Open Scope list_scope.

(** The response is the entry of the request in the current store. *)
Definition stored (request : Request) (response : Response) (w : World) : Prop :=
  storage_lookup CACHE_NAME (key_of request) (storage w) = Some response.

(** Events that change the cache storage. *)
Definition is_write (e : Event) : bool :=
  match e with
  | EvOpen _ | EvPut _ _ _ | EvDelete _ => true
  | _ => false
  end.

(** The world after the response was written to the current store. *)
Definition written (request : Request) (response : Response) (w : World)
    (events : list Event) : World :=
  {| storage := storage_put CACHE_NAME (key_of request) response
                  (storage_open CACHE_NAME (storage w));
     trace := trace w ++ events |}.

(** The world after the current store was opened and the write refused. *)
Definition opened (w : World) (events : list Event) : World :=
  {| storage := storage_open CACHE_NAME (storage w); trace := trace w ++ events |}.

(** The world after a strategy asked the cache to store the response. *)
Definition after_put (request : Request) (response : Response) (w : World)
    (events : list Event) : World :=
  if put_accepts request response then written request response w events
  else opened w events.

(** The world after events that leave the storage alone. *)
Definition logged (w : World) (events : list Event) : World :=
  {| storage := storage w; trace := trace w ++ events |}.

(** The requests fetched and the warnings logged along a trace. *)
Definition fetched (t : list Event) : list Request :=
  flat_map (fun e => match e with SW.EvFetch r => [r] | _ => [] end) t.

Definition warnings (t : list Event) : list string :=
  flat_map (fun e => match e with EvWarn m _ => [m] | _ => [] end) t.

(** The response [cache.add] stores for a precache entry, if any. *)
Definition precached (self_origin : string) (network : Request -> option Response)
    (path : string) : option Response :=
  if http_scheme (url (precache_request self_origin path)) then
    match network (precache_request self_origin path) with
    | Some response => if add_accepts response then Some response else None
    | None => None
    end
  else None.

(** A precache entry fails when nothing is stored for it: its fetch rejects
    or [cache.add] refuses its response. *)
Definition precache_fails (self_origin : string) (network : Request -> option Response)
    (path : string) : bool :=
  match precached self_origin network path with
  | Some _ => false
  | None => true
  end.

(** The storage after pre-caching the entries in order. *)
Definition precache_storage (self_origin : string) (network : Request -> option Response)
    (paths : list string) (s : CacheStorage) : CacheStorage :=
  fold_left
    (fun s path =>
       match precached self_origin network path with
       | Some response =>
           storage_put CACHE_NAME (key_of (precache_request self_origin path)) response s
       | None => s
       end)
    paths s.

(** What deleting the stores of these names leaves in the trace. *)
Definition deletion_events (names : list string) : list Event :=
  flat_map (fun name => [EvLog ("[SW] Deleting old cache: " ++ name)%string; EvDelete name])
    names.

(** No store other than the current one holds an entry for the key. *)
Definition sole_holder (k : string * string) (s : CacheStorage) : Prop :=
  forall name c, In (name, c) s -> name <> CACHE_NAME -> c !! k = None.

(** Where a response of the fetch handler comes from: the network, the
    cache storage, or one of the three synthetic responses. *)
Definition response_source (network : Request -> option Response) (request : Request)
    (w : World) (response : Response) : Prop :=
  network request = Some response
  \/ storage_match (key_of request) (storage w) = Some response
  \/ In response [asset_unavailable; offline_json; offline_page].

(** The world a strategy leaves: events only, the current store opened, or
    the response written to it. *)
Definition strategy_effect (request : Request) (w w' : World) : Prop :=
  exists events,
    w' = logged w events
    \/ w' = opened w events
    \/ exists response, w' = written request response w events.

End Facts.

Module ApiSpec.
Import JS App.

(** The [options] that [api] hands to [fetch]. *)
Definition api_options (method : option string) (body : option JSON) : RequestInit :=
  {| method := match method with Some m => m | None => "GET" end;
     headers := [("Content-Type", "application/json"); ("Accept", "application/json")];
     body := match body with
             | Some JNull | None => None
             | Some b => Some (stringify b)
             end |}.

(** The property [name] of a parsed body that is not [null]: [None] is
    [undefined]. *)
Definition field (data : JSON) (name : string) : option JSON :=
  match data with
  | JObject props => snd <$> List.find (fun p => String.eqb (fst p) name) props
  | _ => None
  end.

(** [v] when it is truthy. *)
Definition truthy_value (v : option JSON) : option JSON := if truthy v then v else None.

(** The message of the rejection for a parsed body: its [error] property,
    else its [message] property, else a fixed text. *)
Definition message_of (error message : option JSON) : string :=
  match truthy_value error with
  | Some v => to_string v
  | None =>
      match truthy_value message with
      | Some v => to_string v
      | None => "Something went wrong."
      end
  end.

(** The reading under which every parsed body of a failed response yields a
    message the server provided. *)
Definition rejects_with_server_message : Prop :=
  forall (network : string -> RequestInit -> option Response)
         (JSON_parse : string -> option JSON)
         (url : string) (method : option string) (body : option JSON)
         (response : Response) (data : JSON) (w : World),
    network url (api_options method body) = Some response ->
    ok response = false ->
    JSON_parse (text response) = Some data ->
    exists message,
      Spec.server_provided data message
      /\ fst (api network JSON_parse url method body w) = Throw (Error message).

End ApiSpec.

(** ** Concrete requests, networks and worlds *)

Module Examples.
Import JS SW.

Definition example_origin : string := "https://restaurant.example".

Definition get_orders : Request :=
  {| method := "GET";
     url := {| origin := example_origin; pathname := "/api/orders"; search := "" |};
     mode := "cors" |}.

Definition post_orders_page : Request :=
  {| method := "POST";
     url := {| origin := example_origin; pathname := "/orders"; search := "" |};
     mode := "navigate" |}.

Definition get_script : Request :=
  {| method := "GET";
     url := {| origin := example_origin; pathname := "/static/js/app.js"; search := "" |};
     mode := "no-cors" |}.

Definition get_foreign_font : Request :=
  {| method := "GET";
     url := {| origin := "https://fonts.example"; pathname := "/inter.woff2"; search := "" |};
     mode := "cors" |}.

Definition ok_response : Response :=
  SW.mkResponse "[]" 200 "OK" [("Content-Type", "application/json")].

(** An answer to a range request: its status is in the 2xx range. *)
Definition partial_response : Response :=
  SW.mkResponse "[" 206 "Partial Content" [("Content-Type", "application/json")].

Definition ranged (request : Request) : option Response := Some partial_response.

Definition online (request : Request) : option Response := Some ok_response.

Definition offline (request : Request) : option Response := None.

Definition fresh : World := {| storage := []; trace := [] |}.

(** A world that still holds the store of an earlier version. *)
Definition upgraded : World :=
  {| storage := [("restaurant-manager-v0", {[ key_of get_orders := ok_response ]});
                 (CACHE_NAME, ∅)];
     trace := [] |}.

Definition server_error : App.Response := {| App.status := 500; App.text := "{}" |}.

Definition failing_server (url : string) (options : App.RequestInit)
    : option App.Response := Some server_error.

(** A parser that knows the empty object only. *)
Definition parse_empty_object (text : string) : option JSON :=
  if String.eqb text "{}" then Some (JObject []) else None.

End Examples.

(** ** static/js/app.js: formatting *)

Module Format.

Section Clock.

(** [new Date(isoString).getTime()] in milliseconds: [None] is [NaN]. *)
Variable Date_parse : string -> option Z.

(** [Date.now()] *)
Variable now : Z.

(** [date.toLocaleDateString('en-US', { month: 'short', day: 'numeric' })] *)
Variable toLocaleDateString : Z -> string.

(** Return a human-friendly relative time string.  [None] is a missing
    ([null] or [undefined]) argument. *)
Definition formatTime (isoString : option string) : string :=
  match isoString with
  | None => ""
  | Some iso =>
      if String.eqb iso "" then ""
      else
        match Date_parse iso with
        | None => ""
        | Some time =>
            let diffSeconds := ((now - time) / 1000)%Z in
            if (diffSeconds <? 0)%Z then "just now"
            else if (diffSeconds <? 10)%Z then "just now"
            else if (diffSeconds <? 60)%Z then pretty diffSeconds ++ " sec ago"
            else if (diffSeconds <? 3600)%Z then
              let minutes := (diffSeconds / 60)%Z in
              pretty minutes ++ " min ago"
            else if (diffSeconds <? 86400)%Z then
              let hours := (diffSeconds / 3600)%Z in
              pretty hours ++ " hr ago"
            else if (diffSeconds <? 604800)%Z then
              let days := (diffSeconds / 86400)%Z in
              pretty days ++ (if (days =? 1)%Z then " day ago" else " days ago")
            else
              (* Older than a week: show a short date. *)
              toLocaleDateString time
        end
  end.

End Clock.

End Format.

(** ** static/js/app.js: navigation highlight *)

Module Nav.

(** [element.classList]: class names without repetition, in order. *)
Definition classList_remove (name : string) (classes : list string) : list string :=
  List.filter (fun c => negb (String.eqb c name)) classes.

Definition classList_add (name : string) (classes : list string) : list string :=
  if existsb (fun c => String.eqb c name) classes then classes
  else (classes ++ [name])%list.

(** An [a] element of [.nav-links]: [href] is [None] when the attribute is
    missing ([getAttribute] returns [null]). *)
Record Link : Type := mkLink { href : option string; classList : list string }.

(** The argument of [startsWith] is converted to a string. *)
Definition toString (s : option string) : string :=
  match s with Some v => v | None => "null" end.

(** The body of the [forEach] callback for one link. *)
Definition highlightLink (currentPath : string) (link : Link) : Link :=
  let classes := classList_remove "active" (classList link) in
  let href := href link in
  if match href with Some h => String.eqb h currentPath | None => false end then
    {| href := href; classList := classList_add "active" classes |}
  else if negb match href with Some h => String.eqb h "/" | None => false end
          && String.prefix (toString href) currentPath then
    (* Handle sub-paths (e.g. /orders/123 highlights /orders). *)
    {| href := href; classList := classList_add "active" classes |}
  else {| href := href; classList := classes |}.

(** Highlight the navigation link that matches the current page path. *)
Definition highlightActiveNav (currentPath : string) (links : list Link) : list Link :=
  List.map (highlightLink currentPath) links.

Definition is_active (link : Link) : bool :=
  existsb (fun c => String.eqb c "active") (classList link).

End Nav.

(** ** static/js/app.js: auto-refresh *)

Module AutoRefresh.

Section Refresh.

(** The refresh callbacks handed in by page scripts. *)
Variable Callback : Type.

(** The two module variables, the live interval timers with the callback
    their closure captured and their period, the id the next [setInterval]
    returns, and the callbacks invoked so far. *)
Record Page : Type := mkPage {
  autoRefreshInterval : option nat;
  autoRefreshCallback : option Callback;
  intervals : gmap nat (Callback * Z);
  next_id : nat;
  refreshed : list Callback
}.

Definition initial (first_id : nat) : Page :=
  {| autoRefreshInterval := None; autoRefreshCallback := None;
     intervals := ∅; next_id := first_id; refreshed := [] |}.

(** Stop the current auto-refresh, if active. *)
Definition stopAutoRefresh (p : Page) : Page :=
  match autoRefreshInterval p with
  | Some id =>
      {| autoRefreshInterval := None;
         autoRefreshCallback := None;
         intervals := delete id (intervals p);
         next_id := next_id p;
         refreshed := refreshed p |}
  | None => p
  end.

(** Start auto-refreshing by calling [callback] every [intervalMs]
    milliseconds ([None]: the default of 30000). *)
Definition startAutoRefresh (callback : Callback) (intervalMs : option Z) (p : Page)
    : Page :=
  let intervalMs := match intervalMs with Some ms => ms | None => 30000%Z end in
  let p := stopAutoRefresh p in
  {| autoRefreshCallback := Some callback;
     autoRefreshInterval := Some (next_id p);
     intervals := <[next_id p := (callback, intervalMs)]> (intervals p);
     next_id := S (next_id p);
     refreshed := refreshed p |}.

Definition isAutoRefreshActive (p : Page) : bool :=
  match autoRefreshInterval p with Some _ => true | None => false end.

(** Toggle auto-refresh on or off; the result tells whether it is now
    active.  [callback] is [None] when the argument is left out. *)
Definition toggleAutoRefresh (callback : option Callback) (intervalMs : option Z)
    (p : Page) : bool * Page :=
  if isAutoRefreshActive p then (false, stopAutoRefresh p)
  else
    let cb := match callback with Some c => Some c | None => autoRefreshCallback p end in
    match cb with
    | Some c => (true, startAutoRefresh c intervalMs p)
    | None => (false, p)
    end.

(** One period of the interval [id] elapses: its closure refreshes only
    when the tab is visible and online.  A cleared interval does not fire. *)
Definition tick (id : nat) (hidden onLine : bool) (p : Page) : Page :=
  match intervals p !! id with
  | Some (callback, _) =>
      if negb hidden && onLine then
        {| autoRefreshInterval := autoRefreshInterval p;
           autoRefreshCallback := autoRefreshCallback p;
           intervals := intervals p;
           next_id := next_id p;
           refreshed := (refreshed p ++ [callback])%list |}
      else p
  | None => p
  end.

(** What page scripts and the clock can do, in any order. *)
Inductive Op : Type :=
| Start (callback : Callback) (intervalMs : option Z)
| Stop
| Toggle (callback : option Callback) (intervalMs : option Z)
| Tick (id : nat) (hidden onLine : bool).

Definition step (p : Page) (op : Op) : Page :=
  match op with
  | Start callback intervalMs => startAutoRefresh callback intervalMs p
  | Stop => stopAutoRefresh p
  | Toggle callback intervalMs => snd (toggleAutoRefresh callback intervalMs p)
  | Tick id hidden onLine => tick id hidden onLine p
  end.

Definition run (ops : list Op) (p : Page) : Page := fold_left step ops p.

(** The timers agree with the module variables: no timer when inactive,
    exactly the recorded one, with the recorded callback, when active. *)
Definition consistent (p : Page) : Prop :=
  match autoRefreshInterval p with
  | Some id =>
      exists callback intervalMs,
        autoRefreshCallback p = Some callback
        /\ intervals p = {[ id := (callback, intervalMs) ]}
  | None => autoRefreshCallback p = None /\ intervals p = ∅
  end.

End Refresh.

Arguments mkPage {Callback}.
Arguments autoRefreshInterval {Callback}.
Arguments autoRefreshCallback {Callback}.
Arguments intervals {Callback}.
Arguments next_id {Callback}.
Arguments refreshed {Callback}.
Arguments initial {Callback}.
Arguments stopAutoRefresh {Callback}.
Arguments startAutoRefresh {Callback}.
Arguments isAutoRefreshActive {Callback}.
Arguments toggleAutoRefresh {Callback}.
Arguments tick {Callback}.
Arguments Start {Callback}.
Arguments Stop {Callback}.
Arguments Toggle {Callback}.
Arguments Tick {Callback}.
Arguments step {Callback}.
Arguments run {Callback}.
Arguments consistent {Callback}.

End AutoRefresh.

(** ** static/js/app.js: debounce *)

Module Debounce.

Section Debounced.

(** The arguments of one call of the debounced function. *)
Variable Args : Type.

(** The closure variable [timerId], the pending timeouts with the arguments
    their callback captured, the id the next [setTimeout] returns, and the
    argument lists [fn] was applied to so far. *)
Record State : Type := mkState {
  timerId : option nat;
  timeouts : gmap nat Args;
  next_id : nat;
  applied : list Args
}.

Definition initial (first_id : nat) : State :=
  {| timerId := None; timeouts := ∅; next_id := first_id; applied := [] |}.

(** [debounced(...args)] *)
Definition debounced (args : Args) (s : State) : State :=
  let pending :=
    match timerId s with
    | Some id => delete id (timeouts s)
    | None => timeouts s
    end in
  {| timerId := Some (next_id s);
     timeouts := <[next_id s := args]> pending;
     next_id := S (next_id s);
     applied := applied s |}.

(** [debounced.cancel()]: cancel any pending invocation. *)
Definition cancel (s : State) : State :=
  match timerId s with
  | Some id =>
      {| timerId := None;
         timeouts := delete id (timeouts s);
         next_id := next_id s;
         applied := applied s |}
  | None => s
  end.

(** The delay of the timeout [id] elapses: its callback resets [timerId]
    and applies [fn].  A cleared timeout does not fire, a timeout fires
    once. *)
Definition fire (id : nat) (s : State) : State :=
  match timeouts s !! id with
  | Some args =>
      {| timerId := None;
         timeouts := delete id (timeouts s);
         next_id := next_id s;
         applied := (applied s ++ [args])%list |}
  | None => s
  end.

Inductive Op : Type :=
| Call (args : Args)
| Cancel
| Fire (id : nat).

Definition step (s : State) (op : Op) : State :=
  match op with
  | Call args => debounced args s
  | Cancel => cancel s
  | Fire id => fire id s
  end.

Definition run (ops : list Op) (s : State) : State := fold_left step ops s.

(** The pending timeouts are the one recorded in [timerId], if any. *)
Definition consistent (s : State) : Prop :=
  match timerId s with
  | Some id => exists args, timeouts s = {[ id := args ]}
  | None => timeouts s = ∅
  end.

End Debounced.

Arguments mkState {Args}.
Arguments timerId {Args}.
Arguments timeouts {Args}.
Arguments next_id {Args}.
Arguments applied {Args}.
Arguments initial {Args}.
Arguments debounced {Args}.
Arguments cancel {Args}.
Arguments fire {Args}.
Arguments Call {Args}.
Arguments Cancel {Args}.
Arguments Fire {Args}.
Arguments step {Args}.
Arguments run {Args}.
Arguments consistent {Args}.

End Debounce.

(** ** static/js/app.js: theme toggle *)

Module Theme.

Definition THEME_KEY : string := "restaurant-manager-theme".

(** The button [#theme-toggle]. *)
Record Button : Type := mkButton { textContent : string; aria_label : string }.

(** The parts of the page the theme code touches: the [data-theme]
    attribute of the document element, [localStorage], the toggle button if
    it is in the document, and whether a [.navbar] exists. *)
Record Page : Type := mkPage {
  data_theme : option string;
  localStorage : gmap string string;
  theme_toggle : option Button;
  navbar : bool
}.

(** Apply the given theme to the document and persist it. *)
Definition applyTheme (theme : string) (p : Page) : Page :=
  {| data_theme := Some theme;
     localStorage := <[THEME_KEY := theme]> (localStorage p);
     theme_toggle :=
       match theme_toggle p with
       | Some btn =>
           Some {| textContent := if String.eqb theme "dark" then "☀" else "☾";
                   aria_label := if String.eqb theme "dark" then "Switch to light mode"
                                 else "Switch to dark mode" |}
       | None => None
       end;
     navbar := navbar p |}.

(** [localStorage.getItem(THEME_KEY) || fallback] *)
Definition stored_or (fallback : string) (p : Page) : string :=
  match localStorage p !! THEME_KEY with
  | Some stored => if String.eqb stored "" then fallback else stored
  | None => fallback
  end.

(** Toggle between dark and light themes. *)
Definition toggleTheme (p : Page) : Page :=
  let current := stored_or "light" p in
  applyTheme (if String.eqb current "dark" then "light" else "dark") p.

(** Inject the theme toggle button into the navbar (if not already
    present). *)
Definition injectThemeToggle (p : Page) : Page :=
  match theme_toggle p with
  | Some _ => p
  | None =>
      if negb (navbar p) then p
      else {| data_theme := data_theme p;
              localStorage := localStorage p;
              theme_toggle := Some {| textContent := ""; aria_label := "Toggle theme" |};
              navbar := navbar p |}
  end.

(** Initialise theme from stored preference or OS preference
    ([prefers_dark]: the media query [(prefers-color-scheme: dark)] exists
    and matches). *)
Definition initTheme (prefers_dark : bool) (p : Page) : Page :=
  let p := injectThemeToggle p in
  match localStorage p !! THEME_KEY with
  | Some stored =>
      if negb (String.eqb stored "") then applyTheme stored p
      else if prefers_dark then applyTheme "dark" p else applyTheme "light" p
  | None => if prefers_dark then applyTheme "dark" p else applyTheme "light" p
  end.

(** The attribute, the stored value and the button tell the same theme. *)
Definition in_sync (p : Page) : Prop :=
  exists theme,
    data_theme p = Some theme
    /\ localStorage p !! THEME_KEY = Some theme
    /\ forall btn, theme_toggle p = Some btn ->
         aria_label btn = (if String.eqb theme "dark" then "Switch to light mode"
                           else "Switch to dark mode").

End Theme.

(** ** static/js/app.js: PWA install prompt *)

Module InstallPrompt.

(** A [beforeinstallprompt] event, with the outcome its [userChoice]
    resolves to. *)
Record BeforeInstallPromptEvent : Type := mkPromptEvent { outcome : string }.

Inductive Event : Type :=
| EvPrompt (e : BeforeInstallPromptEvent)
| EvToast (message : string) (type : string).

(** The module variable and what happened so far. *)
Record Page : Type := mkPage {
  deferredInstallPrompt : option BeforeInstallPromptEvent;
  log : list Event
}.

(** A call of [promptInstall] has returned its result, or it is suspended
    at [await deferredInstallPrompt.userChoice] for the event it prompted. *)
Inductive Call : Type :=
| Settled (result : bool)
| Awaiting (e : BeforeInstallPromptEvent).




End InstallPrompt.

Module MoreExamples.
Import JS SW Examples.

Definition get_tables_page : Request :=
  {| method := "GET";
     url := {| origin := example_origin; pathname := "/tables"; search := "" |};
     mode := "navigate" |}.

Definition get_orders_page : Request :=
  {| method := "GET";
     url := {| origin := example_origin; pathname := "/orders/17"; search := "" |};
     mode := "navigate" |}.

Definition unreachable_server (url : string) (options : App.RequestInit)
    : option App.Response := None.

Definition null_error : App.Response := {| App.status := 502; App.text := "null" |}.

Definition null_server (url : string) (options : App.RequestInit)
    : option App.Response := Some null_error.

(** A parser that knows the literal [null] only. *)
Definition parse_null (text : string) : option JSON :=
  if String.eqb text "null" then Some JNull else None.

(** A clock reading and a parser of one timestamp, ninety seconds earlier. *)
Definition example_now : Z := 1767225690000.

Definition parse_example_date (iso : string) : option Z :=
  if String.eqb iso "2026-01-01T00:00:00Z" then Some 1767225600000%Z else None.

Definition short_date (time : Z) : string := "Jan 1".

End MoreExamples.


(** * Verification *)

(** ** The regular expression of [isStaticAsset] *)

Module RegexFacts.
Import JS Regex SW Spec.
#[local] Open Scope list_scope.

Lemma strip_prefix_eqb (a s b : string) :
  match strip_prefix a s with Some rest => String.eqb rest b | None => false end
  = String.eqb s (a ++ b).
Proof.
  revert s; induction a as [|c a IH]; intros s; simpl; [reflexivity|].
  destruct s as [|d s]; simpl; [reflexivity|].
  rewrite (Ascii.eqb_sym c d).
  destruct (Ascii.eqb d c); [apply IH | reflexivity].
Qed.

Lemma match_path_ext (p : list item) (s : string) (k k' : string -> bool) :
  (forall x, k x = k' x) -> match_path p s k = match_path p s k'.
Proof.
  intros Hk; revert s; induction p as [|[l|] p IH]; intros s; simpl.
  - apply Hk.
  - destruct (strip_prefix l s); [apply IH | reflexivity].
  - destruct s; [apply IH | reflexivity].
Qed.

Lemma match_path_app (p q : list item) (s : string) (k : string -> bool) :
  match_path (p ++ q) s k = match_path p s (fun rest => match_path q rest k).
Proof.
  revert s; induction p as [|[l|] p IH]; intros s; simpl.
  - reflexivity.
  - destruct (strip_prefix l s); [apply IH | reflexivity].
  - destruct s; [apply IH | reflexivity].
Qed.

Lemma match_path_existsb (p : list item) (qs : list (list item)) (s : string)
    (k : string -> bool) :
  match_path p s (fun rest => existsb (fun q => match_path q rest k) qs)
  = existsb (fun q => match_path (p ++ q) s k) qs.
Proof.
  revert s; induction p as [|[l|] p IH]; intros s; simpl.
  - reflexivity.
  - destruct (strip_prefix l s) eqn:E; [apply IH | ].
    clear IH; induction qs as [|q qs IHqs]; simpl; [reflexivity | apply IHqs].
  - destruct s; [apply IH | ].
    clear IH; induction qs as [|q qs IHqs]; simpl; [reflexivity | apply IHqs].
Qed.

Lemma existsb_fmap {A B} (f : A -> B) (g : B -> bool) (l : list A) :
  existsb g (List.map f l) = existsb (fun x => g (f x)) l.
Proof. induction l as [|x l IH]; simpl; [reflexivity | rewrite IH; reflexivity]. Qed.

Lemma match_at_paths (r : regex) :
  forall s k, match_at r s k = existsb (fun p => match_path p s k) (paths r).
Proof.
  induction r as [l | r1 IH1 r2 IH2 | r1 IH1 r2 IH2 | r1 IH1 | ]; intros s k; simpl.
  - destruct (strip_prefix l s); [rewrite orb_false_r|]; reflexivity.
  - rewrite existsb_app, IH1, IH2. reflexivity.
  - rewrite IH1. clear IH1.
    induction (paths r1) as [|p ps IHps]; simpl; [reflexivity|].
    rewrite existsb_app, <- IHps. f_equal.
    rewrite existsb_fmap, <- match_path_existsb.
    apply match_path_ext. intros x. apply IH2.
  - rewrite existsb_app, IH1. simpl. rewrite orb_false_r. reflexivity.
  - destruct s; [rewrite orb_false_r|]; reflexivity.
Qed.

Lemma match_path_word (cs : list string) (s : string) :
  match_path (List.map Chars cs ++ [End]) s (fun _ => true)
  = String.eqb s (fold_right String.append "" cs).
Proof.
  revert s; induction cs as [|c cs IH]; intros s; simpl.
  - destruct s; reflexivity.
  - rewrite <- strip_prefix_eqb.
    destruct (strip_prefix c s); [apply IH | reflexivity].
Qed.

Lemma ends_with_existsb {A} (f : A -> string) (l : list A) (s : string) :
  existsb (fun x => ends_with (f x) s) l
  = existsb (fun x => String.eqb s (f x)) l
    || match s with
       | EmptyString => false
       | String _ s' => existsb (fun x => ends_with (f x) s') l
       end.
Proof.
  induction l as [|x l IH]; cbn [existsb].
  - destruct s; reflexivity.
  - rewrite IH. destruct s; cbn [ends_with]; btauto.
Qed.

Lemma static_asset_words (s : string) :
  match_at STATIC_ASSET_RE s (fun _ => true)
  = existsb (fun ext => String.eqb s ("." ++ ext)) STATIC_EXTENSIONS.
Proof.
  rewrite match_at_paths.
  change (paths STATIC_ASSET_RE) with
    (List.map (fun cs => List.map Chars cs ++ [End])%list
       [["."; "css"]; ["."; "js"]; ["."; "png"]; ["."; "jpg"]; ["."; "jpeg"];
        ["."; "gif"]; ["."; "svg"]; ["."; "ico"]; ["."; "woff"; "2"]; ["."; "woff"];
        ["."; "ttf"]; ["."; "eot"]]).
  rewrite existsb_fmap.
  cbn [existsb]. rewrite !match_path_word.
  cbn [existsb STATIC_EXTENSIONS fold_right String.append].
  do 8 (apply (f_equal2 orb); [reflexivity|]).
  rewrite !orb_assoc. rewrite (orb_comm (String.eqb s ".woff2")). reflexivity.
Qed.

(** The regular expression of the source accepts exactly the paths that end
    with a dot and one of the listed extensions. *)
Lemma isStaticAsset_extension (pathname : string) :
  isStaticAsset pathname = has_static_extension pathname.
Proof.
  unfold isStaticAsset, has_static_extension.
  induction pathname as [|c p IH].
  - reflexivity.
  - rewrite ends_with_existsb. cbn [test]. rewrite IH, static_asset_words. reflexivity.
Qed.
End RegexFacts.

(** ** The service worker *)

Module SWFacts.
Import JS Regex SW Spec Facts Examples.
#[local] Open Scope list_scope.

Section StorageFacts.

Lemma ok_2xx (r : Response) : ok r = true <-> 200 <= status r <= 299.
Proof.
  unfold ok. rewrite andb_true_iff, !Nat.leb_le. reflexivity.
Qed.

Lemma names_storage_put (name : string) (k : string * string) (r : Response)
    (s : CacheStorage) :
  names (storage_put name k r s) = names s.
Proof.
  unfold names, storage_put. rewrite List.map_map. apply List.map_ext.
  intros [n c]; simpl. destruct (String.eqb n name); reflexivity.
Qed.

Lemma has_cache_find (name : string) (s : CacheStorage) :
  has_cache name s = true ->
  exists c, List.find (fun e => String.eqb (fst e) name) s = Some (name, c).
Proof.
  unfold has_cache, names. induction s as [|[n c] s IH]; simpl; [discriminate|].
  rewrite (String.eqb_sym name n).
  destruct (String.eqb n name) eqn:E; simpl.
  - apply String.eqb_eq in E. subst n. eauto.
  - exact IH.
Qed.

Lemma has_cache_open (name : string) (s : CacheStorage) : has_cache name (storage_open name s) = true.
Proof.
  unfold storage_open. destruct (has_cache name s) eqn:E; [exact E|].
  unfold has_cache, names. rewrite List.map_app, existsb_app. simpl.
  rewrite String.eqb_refl. apply orb_true_iff. right. reflexivity.
Qed.

Lemma storage_lookup_put (name : string) (k : string * string) (r : Response)
    (s : CacheStorage) :
  has_cache name s = true -> storage_lookup name k (storage_put name k r s) = Some r.
Proof.
  unfold storage_lookup, storage_put, has_cache, names.
  induction s as [|[n c] s IH]; simpl; [discriminate|].
  rewrite (String.eqb_sym name n).
  destruct (String.eqb n name) eqn:E; simpl.
  - intros _. rewrite E. apply lookup_insert_eq.
  - intros H. rewrite E. apply IH, H.
Qed.

Lemma stored_after_put (request : Request) (response : Response) (s : CacheStorage) (t : list Event) :
  stored request response
    {| storage := storage_put CACHE_NAME (key_of request) response
                    (storage_open CACHE_NAME s);
       trace := t |}.
Proof. apply storage_lookup_put, has_cache_open. Qed.

Lemma storage_lookup_open (name : string) (k : string * string) (s : CacheStorage) :
  storage_lookup name k (storage_open CACHE_NAME s) = storage_lookup name k s.
Proof.
  unfold storage_open. destruct (has_cache CACHE_NAME s); [reflexivity|].
  unfold storage_lookup. induction s as [|[n c] s IH]; cbn [app List.find fst].
  - destruct (String.eqb CACHE_NAME name); reflexivity.
  - destruct (String.eqb n name); [reflexivity | exact IH].
Qed.

Lemma storage_open_present (s : CacheStorage) :
  has_cache CACHE_NAME s = true -> storage_open CACHE_NAME s = s.
Proof. intros H. unfold storage_open. rewrite H. reflexivity. Qed.

End StorageFacts.

Section Strategies.
Variable network : Request -> option Response.

Lemma put_not_awaited (request : Request) (response : Response) (w : World)
    (events : list Event) :
  not_awaited (cache_put CACHE_NAME request (clone response))
    {| storage := storage_open CACHE_NAME (storage w); trace := trace w ++ events |}
  = (Ok tt, after_put request response w (events ++ [EvPut CACHE_NAME request response])).
Proof.
  unfold not_awaited, cache_put, clone, after_put, written, opened, emit.
  destruct (put_accepts request response); cbn [snd storage trace];
    rewrite <- app_assoc; reflexivity.
Qed.

Lemma cacheFirst_run (request : Request) (w : World) :
  cacheFirst network request w =
    match storage_match (key_of request) (storage w) with
    | Some cached => (Ok cached, logged w [EvMatch request])
    | None =>
        match network request with
        | Some response =>
            (Ok response,
             if ok response
             then after_put request response w
                    [EvMatch request; SW.EvFetch request; EvOpen CACHE_NAME;
                     EvPut CACHE_NAME request response]
             else logged w [EvMatch request; SW.EvFetch request])
        | None => (Ok asset_unavailable, logged w [EvMatch request; SW.EvFetch request])
        end
    end.
Proof.
  unfold cacheFirst, caches_match, emit, logged. unfold bind at 1.
  destruct (storage_match (key_of request) (storage w)) as [cached|]; [reflexivity|].
  unfold try_catch, SW.fetch, emit. unfold bind at 1. cbn [storage trace].
  destruct (network request) as [response|]; [|rewrite <- app_assoc; reflexivity].
  unfold bind at 1. destruct (ok response).
  - unfold bind at 1. unfold caches_open at 1. cbn [storage trace].
    rewrite <- !app_assoc. cbn [app].
    rewrite (put_not_awaited request response w
               [EvMatch request; SW.EvFetch request; EvOpen CACHE_NAME]).
    reflexivity.
  - unfold ret. rewrite <- app_assoc. reflexivity.
Qed.

Lemma networkFirst_run (request : Request) (w : World) :
  networkFirst network request w =
    match network request with
    | Some response =>
        (Ok response,
         if String.eqb (SW.method request) "GET" && ok response
         then after_put request response w
                [SW.EvFetch request; EvOpen CACHE_NAME; EvPut CACHE_NAME request response]
         else logged w [SW.EvFetch request])
    | None =>
        (Ok match storage_match (key_of request) (storage w) with
            | Some cached => cached
            | None => offline_json
            end,
         logged w [SW.EvFetch request; EvMatch request])
    end.
Proof.
  unfold networkFirst, try_catch, SW.fetch, emit, logged. unfold bind at 1.
  destruct (network request) as [response|].
  - unfold bind at 1. destruct (String.eqb (SW.method request) "GET" && ok response).
    + unfold bind at 1. unfold caches_open at 1. cbn [storage trace].
      rewrite <- !app_assoc. cbn [app].
      rewrite (put_not_awaited request response w [SW.EvFetch request; EvOpen CACHE_NAME]).
      reflexivity.
    + reflexivity.
  - unfold caches_match, bind, emit. cbn [storage trace]. rewrite <- app_assoc.
    destruct (storage_match (key_of request) (storage w)); reflexivity.
Qed.

Lemma networkFirstNavigation_run (request : Request) (w : World) :
  networkFirstNavigation network request w =
    match network request with
    | Some response =>
        (Ok response,
         if ok response
         then after_put request response w
                [SW.EvFetch request; EvOpen CACHE_NAME; EvPut CACHE_NAME request response]
         else logged w [SW.EvFetch request])
    | None =>
        (Ok match storage_match (key_of request) (storage w) with
            | Some cached => cached
            | None => offline_page
            end,
         logged w [SW.EvFetch request; EvMatch request])
    end.
Proof.
  unfold networkFirstNavigation, try_catch, SW.fetch, emit, logged. unfold bind at 1.
  destruct (network request) as [response|].
  - unfold bind at 1. destruct (ok response).
    + unfold bind at 1. unfold caches_open at 1. cbn [storage trace].
      rewrite <- !app_assoc. cbn [app].
      rewrite (put_not_awaited request response w [SW.EvFetch request; EvOpen CACHE_NAME]).
      reflexivity.
    + reflexivity.
  - unfold caches_match, bind, emit. cbn [storage trace]. rewrite <- app_assoc.
    destruct (storage_match (key_of request) (storage w)); reflexivity.
Qed.

(** C1 (amended): when the fetch of the network-first strategy succeeds,
    the live response is returned as it is, whatever its status.  The cache
    is asked to store a copy exactly when the method is GET and the response
    is ok (status 200 to 299, [ok_2xx]); the copy is stored exactly when,
    besides, the cache accepts it: the status is not 206 and no [Vary]
    header holds [*] (and the URL is http or https).  Otherwise no entry is
    written. *)
Theorem networkFirst_online (request : Request) (response : Response) (w : World) :
  network request = Some response ->
  let result := fst (networkFirst network request w) in
  let w' := snd (networkFirst network request w) in
  result = Ok response
  /\ if String.eqb (SW.method request) "GET" && ok response
     then trace w' = trace w ++ [SW.EvFetch request; EvOpen CACHE_NAME;
                                 EvPut CACHE_NAME request response]
          /\ if put_accepts request response
             then stored request response w'
                  /\ storage w' = storage_put CACHE_NAME (key_of request) response
                                    (storage_open CACHE_NAME (storage w))
             else storage w' = storage_open CACHE_NAME (storage w)
     else storage w' = storage w /\ trace w' = trace w ++ [SW.EvFetch request].
Proof.
  intros Hnet. rewrite networkFirst_run, Hnet. cbn [fst snd]. split; [reflexivity|].
  destruct (String.eqb (SW.method request) "GET" && ok response).
  - unfold after_put. destruct (put_accepts request response); cbn [written opened trace storage].
    + split; [reflexivity|]. split; [apply stored_after_put | reflexivity].
    + split; reflexivity.
  - split; reflexivity.
Qed.

(** C2: when the fetch of the network-first strategy throws, the cached
    response of the request is returned if the storage has one; otherwise
    the response has status 503, the JSON body with the single [error]
    property and the content type [application/json]. *)
Theorem networkFirst_offline (request : Request) (w : World) :
  network request = None ->
  let result := fst (networkFirst network request w) in
  let w' := snd (networkFirst network request w) in
  match storage_match (key_of request) (storage w) with
  | Some cached => result = Ok cached
  | None =>
      result = Ok offline_json
      /\ body offline_json = stringify (JObject [("error", JString "You are offline and no cached data is available.")])
      /\ status offline_json = 503
      /\ SW.headers offline_json = [("Content-Type", "application/json")]
  end.
Proof.
  intros Hnet. rewrite networkFirst_run, Hnet. simpl.
  destruct (storage_match (key_of request) (storage w)); repeat split.
Qed.

(** C3 (amended): the cache-first strategy returns a cached response
    without fetch and without write; on a miss it fetches and returns the
    network response, asking the cache to store a copy exactly when the
    response is ok; the copy is stored exactly when, besides, the cache
    accepts it (GET request, status not 206, no [Vary: *], http(s) URL);
    when the fetch throws it returns the 503 plain-text response instead of
    throwing. *)
Theorem cacheFirst_behaviour (request : Request) (w : World) :
  let result := fst (cacheFirst network request w) in
  let w' := snd (cacheFirst network request w) in
  match storage_match (key_of request) (storage w) with
  | Some cached =>
      result = Ok cached /\ storage w' = storage w
      /\ trace w' = trace w ++ [EvMatch request]
  | None =>
      match network request with
      | Some response =>
          result = Ok response
          /\ if ok response
             then trace w' = trace w ++ [EvMatch request; SW.EvFetch request;
                                         EvOpen CACHE_NAME;
                                         EvPut CACHE_NAME request response]
                  /\ if put_accepts request response
                     then stored request response w'
                          /\ storage w'
                             = storage_put CACHE_NAME (key_of request) response
                                 (storage_open CACHE_NAME (storage w))
                     else storage w' = storage_open CACHE_NAME (storage w)
             else storage w' = storage w
                  /\ trace w' = trace w ++ [EvMatch request; SW.EvFetch request]
      | None =>
          result = Ok asset_unavailable
          /\ storage w' = storage w
          /\ trace w' = trace w ++ [EvMatch request; SW.EvFetch request]
      end
  end.
Proof.
  rewrite cacheFirst_run.
  destruct (storage_match (key_of request) (storage w)) as [cached|]; cbn [fst snd].
  - repeat split.
  - destruct (network request) as [response|]; cbn [fst snd]; [|repeat split].
    split; [reflexivity|]. destruct (ok response); [|split; reflexivity].
    unfold after_put. destruct (put_accepts request response);
      cbn [written opened trace storage].
    + split; [reflexivity|]. split; [apply stored_after_put | reflexivity].
    + split; reflexivity.
Qed.

(** C9: whenever the network fetch throws, each of the three strategies
    leaves the cache storage as it was, and its trace holds no write. *)
Theorem fetch_failure_no_write (request : Request) (w : World) :
  network request = None ->
  (storage (snd (cacheFirst network request w)) = storage w
   /\ exists events, trace (snd (cacheFirst network request w)) = trace w ++ events
                     /\ forallb (fun e => negb (is_write e)) events = true)
  /\ (storage (snd (networkFirst network request w)) = storage w
      /\ trace (snd (networkFirst network request w))
         = trace w ++ [SW.EvFetch request; EvMatch request])
  /\ (storage (snd (networkFirstNavigation network request w)) = storage w
      /\ trace (snd (networkFirstNavigation network request w))
         = trace w ++ [SW.EvFetch request; EvMatch request]).
Proof.
  intros Hnet. split; [|split].
  - rewrite cacheFirst_run, Hnet.
    destruct (storage_match (key_of request) (storage w)); simpl;
      (split; [reflexivity | eexists; split; [reflexivity | reflexivity]]).
  - rewrite networkFirst_run, Hnet. split; reflexivity.
  - rewrite networkFirstNavigation_run, Hnet. split; reflexivity.
Qed.

(** X4: on read requests the navigation strategy is the network-first strategy
    with another last resort. *)
Lemma networkFirstNavigation_get (request : Request) (w : World) :
  SW.method request = "GET" ->
  networkFirstNavigation network request w =
    match network request, storage_match (key_of request) (storage w) with
    | None, None => (Ok offline_page, snd (networkFirst network request w))
    | _, _ => networkFirst network request w
    end.
Proof.
  intros Hget. rewrite networkFirstNavigation_run, networkFirst_run, Hget.
  change (String.eqb "GET" "GET") with true. cbn [andb].
  destruct (network request) as [response|]; [reflexivity|]. cbn [snd].
  destruct (storage_match (key_of request) (storage w)); reflexivity.
Qed.

(** X5: for a request whose method is not GET and whose response is ok the
    navigation strategy opens the current store and asks it to store the
    response, which the cache refuses: no entry is written.  The
    network-first strategy makes neither call.  Both return the response. *)
Theorem networkFirstNavigation_refused_put (request : Request) (response : Response)
    (w : World) :
  network request = Some response -> ok response = true ->
  SW.method request <> "GET" ->
  networkFirstNavigation network request w
  = (Ok response,
     opened w [SW.EvFetch request; EvOpen CACHE_NAME; EvPut CACHE_NAME request response])
  /\ networkFirst network request w = (Ok response, logged w [SW.EvFetch request])
  /\ forall name k,
       storage_lookup name k (storage (snd (networkFirstNavigation network request w)))
       = storage_lookup name k (storage w).
Proof.
  intros Hnet Hok Hm. apply String.eqb_neq in Hm.
  assert (Hput : put_accepts request response = false).
  { unfold put_accepts. rewrite Hm, andb_false_r. reflexivity. }
  rewrite networkFirstNavigation_run, networkFirst_run, Hnet, Hok, Hm.
  unfold after_put. rewrite Hput. cbn [andb snd opened storage].
  split; [reflexivity|]. split; [reflexivity|].
  intros name k. apply storage_lookup_open.
Qed.

(** C4: the navigation strategy returns what the network-first strategy
    returns, except that with the fetch throwing and no cached entry it
    returns the offline HTML page (503, text/html) where the other returns
    the JSON error; and it writes the same cache entries: after either
    strategy every store holds the same entry under every key, and the
    storages are equal whenever the current store exists. *)
Theorem navigation_like_networkFirst (request : Request) (w : World) :
  let nav := networkFirstNavigation network request w in
  let plain := networkFirst network request w in
  match network request, storage_match (key_of request) (storage w) with
  | None, None =>
      fst nav = Ok offline_page /\ fst plain = Ok offline_json
      /\ status offline_page = 503
      /\ SW.headers offline_page = [("Content-Type", "text/html")]
      /\ body offline_page = OFFLINE_HTML
  | _, _ => fst nav = fst plain
  end
  /\ (forall name k,
        storage_lookup name k (storage (snd nav))
        = storage_lookup name k (storage (snd plain)))
  /\ (has_cache CACHE_NAME (storage w) = true -> storage (snd nav) = storage (snd plain)).
Proof.
  cbv zeta. rewrite networkFirstNavigation_run, networkFirst_run.
  destruct (network request) as [response|]; cbn [fst snd].
  - split; [reflexivity|].
    destruct (ok response); [|rewrite andb_false_r; split; reflexivity].
    rewrite andb_true_r.
    destruct (String.eqb (SW.method request) "GET") eqn:Hm; [split; reflexivity|].
    unfold after_put, put_accepts. rewrite Hm, andb_false_r. cbn [andb opened logged storage].
    split.
    + intros name k. apply storage_lookup_open.
    + apply storage_open_present.
  - destruct (storage_match (key_of request) (storage w)); repeat split.
Qed.

End Strategies.

(** C1 as stated fails: a GET answered with status 206, which is in the 2xx
    range, is returned but no copy is stored. *)
Lemma networkFirst_partial_counterexample :
  SW.method get_orders = "GET"
  /\ 200 <= status partial_response <= 299
  /\ fst (networkFirst ranged get_orders fresh) = Ok partial_response
  /\ ~ stored get_orders partial_response (snd (networkFirst ranged get_orders fresh)).
Proof.
  split; [reflexivity|]. split; [cbn; lia|]. rewrite networkFirst_run.
  split; [reflexivity|]. unfold stored. vm_compute. discriminate.
Qed.

(** C3 as stated fails: on a miss, a static asset answered with status 206
    is returned but no copy is stored. *)
Lemma cacheFirst_partial_counterexample :
  storage_match (key_of get_script) (storage fresh) = None
  /\ 200 <= status partial_response <= 299
  /\ fst (cacheFirst ranged get_script fresh) = Ok partial_response
  /\ ~ stored get_script partial_response (snd (cacheFirst ranged get_script fresh)).
Proof.
  split; [reflexivity|]. split; [cbn; lia|]. rewrite cacheFirst_run.
  split; [reflexivity|]. unfold stored. vm_compute. discriminate.
Qed.


Section Lifecycle.
Variable self_origin : string.
Variable network : Request -> option Response.

Lemma precache_step (path : string) (w : World) :
  try_catch (cache_add self_origin network CACHE_NAME path)
    (fun err => console_warn ("[SW] Failed to pre-cache: " ++ path)%string err) w
  = (Ok tt,
     {| storage :=
          match precached self_origin network path with
          | Some response =>
              storage_put CACHE_NAME (key_of (precache_request self_origin path))
                response (storage w)
          | None => storage w
          end;
        trace := trace w ++ precache_events self_origin network path |}).
Proof.
  unfold try_catch, cache_add, precached, precache_events, add_accepts.
  fold (precache_request self_origin path).
  destruct (http_scheme (url (precache_request self_origin path))) eqn:Hs; cbn [negb].
  - unfold bind, SW.fetch, emit.
    destruct (network (precache_request self_origin path)) as [response|];
      cbn [storage trace]; [|unfold console_warn, emit; cbn [storage trace];
                             rewrite <- app_assoc; reflexivity].
    destruct (SW.ok response); cbn [negb orb andb].
    + destruct (partial_content response) eqn:Hp; cbn [negb andb].
      * unfold throw, console_warn, emit. cbn [storage trace].
        rewrite <- app_assoc. reflexivity.
      * destruct (vary_star response) eqn:Hv; cbn [negb].
        -- unfold throw, console_warn, emit. cbn [storage trace].
           rewrite <- app_assoc. reflexivity.
        -- unfold cache_put, put_accepts. rewrite Hs, Hp, Hv.
           change (String.eqb (SW.method (precache_request self_origin path)) "GET")
             with true.
           cbn [negb andb storage trace]. rewrite <- app_assoc. reflexivity.
    + unfold throw, console_warn, emit. cbn [storage trace].
      rewrite <- app_assoc. reflexivity.
  - unfold throw, console_warn, emit. reflexivity.
Qed.

Lemma precache_run (paths : list string) (w : World) :
  allSettled
    (List.map
       (fun url =>
          try_catch (cache_add self_origin network CACHE_NAME url)
            (fun err => console_warn ("[SW] Failed to pre-cache: " ++ url)%string err))
       paths) w
  = (Ok (List.map (fun _ => Fulfilled tt) paths),
     {| storage := precache_storage self_origin network paths (storage w);
        trace := trace w ++ flat_map (precache_events self_origin network) paths |}).
Proof.
  revert w. induction paths as [|path paths IH]; intros w.
  - simpl. unfold ret. rewrite app_nil_r. destruct w; reflexivity.
  - cbn [List.map allSettled flat_map]. unfold bind at 1. unfold settle at 1.
    rewrite precache_step. unfold bind at 1. rewrite IH. unfold ret.
    cbn [storage trace]. rewrite <- !app_assoc. reflexivity.
Qed.

Lemma onInstall_run (w : World) :
  onInstall self_origin network w
  = (Ok tt,
     {| storage := precache_storage self_origin network PRECACHE_URLS
                     (storage_open CACHE_NAME (storage w));
        trace := trace w ++ [EvOpen CACHE_NAME]
                 ++ flat_map (precache_events self_origin network) PRECACHE_URLS
                 ++ [EvSkipWaiting] |}).
Proof.
  unfold onInstall. unfold bind at 1. unfold caches_open.
  unfold bind at 1. rewrite precache_run. unfold skipWaiting, emit.
  cbn [storage trace]. rewrite <- !app_assoc. reflexivity.
Qed.

Lemma fetched_app (t1 t2 : list Event) : fetched (t1 ++ t2) = fetched t1 ++ fetched t2.
Proof. apply flat_map_app. Qed.

Lemma warnings_app (t1 t2 : list Event) : warnings (t1 ++ t2) = warnings t1 ++ warnings t2.
Proof. apply flat_map_app. Qed.

Lemma fetched_precache (paths : list string) :
  http_origin self_origin = true ->
  fetched (flat_map (precache_events self_origin network) paths)
  = List.map (precache_request self_origin) paths.
Proof.
  intros Hs. induction paths as [|path paths IH]; [reflexivity|].
  cbn [flat_map List.map]. rewrite fetched_app, IH. unfold precache_events.
  change (http_scheme (url (precache_request self_origin path)))
    with (http_origin self_origin). rewrite Hs. cbn [negb].
  destruct (network _) as [response|]; [|reflexivity].
  destruct (negb (SW.ok response) || partial_content response); [reflexivity|].
  destruct (vary_star response); reflexivity.
Qed.

Lemma warnings_precache (paths : list string) :
  warnings (flat_map (precache_events self_origin network) paths)
  = List.map (fun path => "[SW] Failed to pre-cache: " ++ path)%string
      (List.filter (precache_fails self_origin network) paths).
Proof.
  induction paths as [|path paths IH]; [reflexivity|].
  cbn [flat_map List.filter]. rewrite warnings_app, IH.
  unfold precache_events, precache_fails, precached, add_accepts.
  destruct (http_scheme _); cbn [negb]; [|reflexivity].
  destruct (network _) as [response|]; [|reflexivity].
  destruct (SW.ok response), (partial_content response), (vary_star response);
    reflexivity.
Qed.

Lemma names_precache_storage (paths : list string) (s : CacheStorage) :
  names (precache_storage self_origin network paths s) = names s.
Proof.
  revert s. unfold precache_storage.
  induction paths as [|path paths IH]; intros s; [reflexivity|].
  cbn [fold_left]. rewrite IH. destruct (precached _ _ _); [|reflexivity].
  apply names_storage_put.
Qed.

Lemma append_empty_r (s : string) : (s ++ "")%string = s.
Proof.
  induction s as [|c s IH]; [reflexivity|].
  change (String c (s ++ "")%string = String c s). rewrite IH. reflexivity.
Qed.

Lemma append_cancel_l (a b c : string) : (a ++ b)%string = (a ++ c)%string -> b = c.
Proof.
  induction a as [|x a IH]; intros H; [exact H|].
  change (String x (a ++ b)%string = String x (a ++ c)%string) in H.
  injection H as H. exact (IH H).
Qed.

Lemma precache_key_inj (p q : string) :
  key_of (precache_request self_origin p) = key_of (precache_request self_origin q) ->
  p = q.
Proof.
  unfold key_of, precache_request, href. cbn [SW.method url origin pathname search].
  intros H. injection H as H. apply append_cancel_l in H.
  rewrite !append_empty_r in H. exact H.
Qed.

Lemma storage_lookup_put_ne (name : string) (k k' : string * string) (r : Response)
    (s : CacheStorage) :
  k' <> k ->
  storage_lookup name k (storage_put CACHE_NAME k' r s) = storage_lookup name k s.
Proof.
  intros Hne. unfold storage_lookup, storage_put.
  induction s as [|[n c] s IH]; [reflexivity|]. cbn [List.map fst snd].
  destruct (String.eqb n CACHE_NAME); cbn [List.find fst];
    (destruct (String.eqb n name); [|exact IH]).
  - apply lookup_insert_ne. exact Hne.
  - reflexivity.
Qed.

Lemma precache_storage_snoc (paths : list string) (path : string) (s : CacheStorage) :
  precache_storage self_origin network (paths ++ [path]) s
  = let s' := precache_storage self_origin network paths s in
    match precached self_origin network path with
    | Some response =>
        storage_put CACHE_NAME (key_of (precache_request self_origin path)) response s'
    | None => s'
    end.
Proof. unfold precache_storage. rewrite fold_left_app. reflexivity. Qed.

Lemma precache_lookup_stored (paths : list string) (s : CacheStorage) (path : string)
    (response : Response) :
  has_cache CACHE_NAME s = true ->
  In path paths ->
  precached self_origin network path = Some response ->
  storage_lookup CACHE_NAME (key_of (precache_request self_origin path))
    (precache_storage self_origin network paths s) = Some response.
Proof.
  intros Hhas Hin Hpre.
  induction paths as [|p paths IH] using rev_ind; [destruct Hin|].
  rewrite precache_storage_snoc. cbv zeta.
  assert (Hhas' : has_cache CACHE_NAME (precache_storage self_origin network paths s)
                  = true).
  { unfold has_cache. rewrite names_precache_storage. exact Hhas. }
  destruct (string_dec p path) as [-> | Hp].
  - rewrite Hpre. apply storage_lookup_put, Hhas'.
  - apply in_app_or in Hin. destruct Hin as [Hin | [Heq | []]]; [|congruence].
    destruct (precached self_origin network p) as [r|]; [|exact (IH Hin)].
    rewrite storage_lookup_put_ne; [exact (IH Hin)|].
    intros Hk. apply Hp. apply precache_key_inj. exact Hk.
Qed.

Lemma precache_lookup_failed (paths : list string) (s : CacheStorage) (path : string) :
  precached self_origin network path = None ->
  storage_lookup CACHE_NAME (key_of (precache_request self_origin path))
    (precache_storage self_origin network paths s)
  = storage_lookup CACHE_NAME (key_of (precache_request self_origin path)) s.
Proof.
  intros Hpre. induction paths as [|p paths IH] using rev_ind; [reflexivity|].
  rewrite precache_storage_snoc. cbv zeta.
  destruct (precached self_origin network p) as [r|] eqn:Hp; [|exact IH].
  rewrite storage_lookup_put_ne; [exact IH|].
  intros Hk. apply precache_key_inj in Hk. subst p. congruence.
Qed.

(** C8: whatever the network does for each precache entry, the install
    handler completes normally.  Every entry of the precache list is
    fetched, in order; every entry whose response the cache accepts (ok, not
    a 206, no [Vary: *]) is stored in the current store under its request;
    exactly the other entries are logged as warnings, and for them the store
    keeps what it held; the handler ends with [skipWaiting].  The worker's
    origin is http or https. *)
Theorem install_best_effort (w : World) :
  http_origin self_origin = true ->
  let result := fst (onInstall self_origin network w) in
  let w' := snd (onInstall self_origin network w) in
  result = Ok tt
  /\ fetched (trace w')
     = fetched (trace w) ++ List.map (precache_request self_origin) PRECACHE_URLS
  /\ warnings (trace w')
     = warnings (trace w)
       ++ List.map (fun path => "[SW] Failed to pre-cache: " ++ path)%string
            (List.filter (precache_fails self_origin network) PRECACHE_URLS)
  /\ (exists t, trace w' = t ++ [EvSkipWaiting])
  /\ has_cache CACHE_NAME (storage w') = true
  /\ (forall path response,
        In path PRECACHE_URLS ->
        network (precache_request self_origin path) = Some response ->
        add_accepts response = true ->
        stored (precache_request self_origin path) response w')
  /\ (forall path,
        In path PRECACHE_URLS ->
        precache_fails self_origin network path = true ->
        storage_lookup CACHE_NAME (key_of (precache_request self_origin path)) (storage w')
        = storage_lookup CACHE_NAME (key_of (precache_request self_origin path))
            (storage w)).
Proof.
  intros Hs. rewrite onInstall_run. cbn [fst snd storage trace].
  split; [reflexivity|]. split; [|split; [|split; [|split; [|split]]]].
  - rewrite !fetched_app, fetched_precache by exact Hs. cbn [fetched flat_map app].
    rewrite app_nil_r. reflexivity.
  - rewrite !warnings_app, warnings_precache. cbn [warnings flat_map app].
    rewrite app_nil_r. reflexivity.
  - eexists. rewrite !app_assoc. reflexivity.
  - unfold has_cache. rewrite names_precache_storage. apply has_cache_open.
  - intros path response Hin Hnet Hacc. unfold stored. cbn [storage].
    apply precache_lookup_stored; [apply has_cache_open | exact Hin |].
    unfold precached.
    change (http_scheme (url (precache_request self_origin path)))
      with (http_origin self_origin). rewrite Hs, Hnet, Hacc. reflexivity.
  - intros path Hin Hfail. rewrite precache_lookup_failed.
    + apply storage_lookup_open.
    + unfold precache_fails in Hfail.
      destruct (precached self_origin network path); [discriminate | reflexivity].
Qed.

Lemma delete_step (name : string) (w : World) :
  bind (console_log ("[SW] Deleting old cache: " ++ name)%string)
    (fun _ => caches_delete name) w
  = (Ok (has_cache name (storage w)),
     {| storage := storage_delete name (storage w);
        trace := trace w ++ [EvLog ("[SW] Deleting old cache: " ++ name)%string;
                             EvDelete name] |}).
Proof.
  unfold bind, console_log, caches_delete, emit. cbn [storage trace].
  rewrite <- app_assoc. reflexivity.
Qed.

Lemma delete_all_run (l : list string) (w : World) :
  exists results,
    all (List.map
           (fun name =>
              bind (console_log ("[SW] Deleting old cache: " ++ name)%string)
                (fun _ => caches_delete name))
           l) w
    = (Ok results,
       {| storage := fold_left (fun s name => storage_delete name s) l (storage w);
          trace := trace w ++ deletion_events l |}).
Proof.
  revert w. induction l as [|name l IH]; intros w.
  - exists []. simpl. unfold ret. rewrite app_nil_r. destruct w; reflexivity.
  - cbn [List.map all]. rewrite delete_step.
    destruct (IH {| storage := storage_delete name (storage w);
                    trace := trace w ++ [EvLog ("[SW] Deleting old cache: " ++ name)%string;
                                         EvDelete name] |}) as [results Hres].
    rewrite Hres. eexists. cbn [storage trace fold_left deletion_events flat_map].
    rewrite <- !app_assoc. reflexivity.
Qed.

Lemma filter_filter {A} (f g : A -> bool) (l : list A) :
  List.filter f (List.filter g l) = List.filter (fun x => g x && f x) l.
Proof.
  induction l as [|x l IH]; [reflexivity|]. simpl.
  destruct (g x); simpl; [destruct (f x)|]; rewrite ?IH; reflexivity.
Qed.

Lemma fold_storage_delete (l : list string) (s : CacheStorage) :
  fold_left (fun s name => storage_delete name s) l s
  = List.filter (fun e => negb (existsb (String.eqb (fst e)) l)) s.
Proof.
  revert s. induction l as [|name l IH]; intros s; cbn [fold_left existsb].
  - induction s as [|e s IHs]; [reflexivity|]. simpl. f_equal. exact IHs.
  - rewrite IH. unfold storage_delete. rewrite filter_filter.
    apply List.filter_ext. intros e. rewrite negb_orb. reflexivity.
Qed.

Lemma old_caches_cover (s : CacheStorage) (e : string * Cache) :
  In e s ->
  existsb (String.eqb (fst e))
    (List.filter (fun name => negb (String.eqb name CACHE_NAME)) (names s))
  = negb (String.eqb (fst e) CACHE_NAME).
Proof.
  intros Hin. destruct (String.eqb (fst e) CACHE_NAME) eqn:E; simpl.
  - apply String.eqb_eq in E. apply not_true_is_false. intros H.
    apply existsb_exists in H. destruct H as [n [Hn Heq]].
    apply List.filter_In in Hn. destruct Hn as [_ Hn].
    apply String.eqb_eq in Heq. rewrite <- Heq, E, String.eqb_refl in Hn. discriminate.
  - apply existsb_exists. exists (fst e). split; [|apply String.eqb_refl].
    apply List.filter_In. split; [apply List.in_map, Hin | rewrite E; reflexivity].
Qed.

Lemma activate_storage (s : CacheStorage) :
  fold_left (fun s name => storage_delete name s)
    (List.filter (fun name => negb (String.eqb name CACHE_NAME)) (names s)) s
  = List.filter (fun e => String.eqb (fst e) CACHE_NAME) s.
Proof.
  rewrite fold_storage_delete. apply List.filter_ext_in. intros e Hin.
  rewrite (old_caches_cover s e Hin). apply negb_involutive.
Qed.

Lemma onActivate_run (w : World) :
  onActivate w
  = (Ok tt,
     {| storage := List.filter (fun e => String.eqb (fst e) CACHE_NAME) (storage w);
        trace := trace w ++ [EvKeys]
                 ++ deletion_events
                      (List.filter (fun name => negb (String.eqb name CACHE_NAME))
                         (names (storage w)))
                 ++ [EvClientsClaim] |}).
Proof.
  unfold onActivate. unfold bind at 1. unfold caches_keys, emit.
  unfold bind at 1.
  destruct (delete_all_run
              (List.filter (fun name => negb (String.eqb name CACHE_NAME))
                 (names (storage w)))
              {| storage := storage w; trace := trace w ++ [EvKeys] |})
    as [results Hres].
  rewrite Hres. unfold clients_claim, emit. cbn [storage trace].
  rewrite activate_storage, <- !app_assoc. reflexivity.
Qed.

Lemma filter_current_unique (s : CacheStorage) :
  List.NoDup (names s) -> In CACHE_NAME (names s) ->
  exists c, List.filter (fun e => String.eqb (fst e) CACHE_NAME) s = [(CACHE_NAME, c)]
            /\ List.find (fun e => String.eqb (fst e) CACHE_NAME) s = Some (CACHE_NAME, c).
Proof.
  induction s as [|[n c] s IH]; intros Hnd Hin; [destruct Hin|].
  simpl in Hnd, Hin. apply List.NoDup_cons_iff in Hnd. destruct Hnd as [Hn Hnd]. simpl.
  destruct (String.eqb n CACHE_NAME) eqn:E.
  - apply String.eqb_eq in E. subst n. exists c. split; [|reflexivity].
    f_equal. clear IH Hin Hnd. induction s as [|[m d] s IHs]; [reflexivity|].
    simpl. simpl in Hn. destruct (String.eqb m CACHE_NAME) eqn:Em.
    + apply String.eqb_eq in Em. subst m. exfalso. apply Hn. left. reflexivity.
    + apply IHs. intros H. apply Hn. right. exact H.
  - destruct Hin as [Heq | Hin].
    + subst n. rewrite String.eqb_refl in E. discriminate.
    + apply (IH Hnd Hin).
Qed.

(** C6: after the activate handler, no store with another name than
    [CACHE_NAME] is left; with the current store present, as the install
    handler leaves it, it is the only store and keeps its entries. *)
Theorem activate_leaves_current_store (w : World) :
  List.NoDup (names (storage w)) ->
  In CACHE_NAME (names (storage w)) ->
  let result := fst (onActivate w) in
  let w' := snd (onActivate w) in
  result = Ok tt
  /\ names (storage w') = [CACHE_NAME]
  /\ (forall name, name <> CACHE_NAME -> ~ In name (names (storage w')))
  /\ (forall k, storage_lookup CACHE_NAME k (storage w')
                = storage_lookup CACHE_NAME k (storage w)).
Proof.
  intros Hnd Hin. rewrite onActivate_run. cbn [fst snd storage].
  destruct (filter_current_unique (storage w) Hnd Hin) as [c [Hf Hfind]].
  rewrite Hf. split; [reflexivity|]. split; [reflexivity|]. split.
  - intros name Hne [H|[]]. apply Hne. symmetry. exact H.
  - intros k. unfold storage_lookup. rewrite Hfind. reflexivity.
Qed.

End Lifecycle.

Section Routing.
Variable self_origin : string.
Variable network : Request -> option Response.

(** C7: for a request of another origin the fetch handler ends without
    [respondWith]: nothing is fetched by the worker, no response is made and
    the cache storage is neither read nor written (the world, trace
    included, is unchanged). *)
Theorem cross_origin_unhandled (request : Request) (w : World) :
  origin (url request) <> self_origin ->
  onFetch self_origin network request w = (Ok Unhandled, w).
Proof.
  intros Hne. unfold onFetch. apply String.eqb_neq in Hne. rewrite Hne. reflexivity.
Qed.

(** C5: a same-origin request is answered by the strategy of its class,
    where the class is decided in this order: path prefix [/api/], static
    extension, navigate mode, default. *)
Theorem onFetch_dispatch (request : Request) (w : World) :
  origin (url request) = self_origin ->
  onFetch self_origin network request w
  = respondWith (strategy_of network (classify request) request) w.
Proof.
  intros Ho. unfold onFetch, classify. rewrite Ho, String.eqb_refl.
  rewrite RegexFacts.isStaticAsset_extension. cbn [negb].
  destruct (String.prefix "/api/" (pathname (url request))); [reflexivity|].
  destruct (has_static_extension (pathname (url request))); [reflexivity|].
  destruct (String.eqb (mode request) "navigate"); reflexivity.
Qed.

End Routing.

(** *** The theorems at concrete requests *)

Lemma networkFirst_online_witness :
  fst (networkFirst online get_orders fresh) = Ok ok_response
  /\ stored get_orders ok_response (snd (networkFirst online get_orders fresh)).
Proof.
  destruct (networkFirst_online online get_orders ok_response fresh eq_refl)
    as [Hresult [_ [Hstored _]]].
  split; [exact Hresult | exact Hstored].
Defined.

Lemma networkFirst_offline_witness :
  fst (networkFirst offline get_orders fresh) = Ok offline_json.
Proof.
  exact (proj1 (networkFirst_offline offline get_orders fresh eq_refl)).
Defined.

Lemma fetch_failure_no_write_witness :
  storage (snd (networkFirstNavigation offline post_orders_page upgraded))
  = storage upgraded.
Proof.
  exact (proj1 (proj2 (proj2
           (fetch_failure_no_write offline post_orders_page upgraded eq_refl)))).
Defined.

Lemma networkFirstNavigation_refused_put_witness :
  networkFirstNavigation online post_orders_page fresh
  = (Ok ok_response,
     opened fresh [SW.EvFetch post_orders_page; EvOpen CACHE_NAME;
                   EvPut CACHE_NAME post_orders_page ok_response]).
Proof.
  exact (proj1 (networkFirstNavigation_refused_put online post_orders_page ok_response
                  fresh eq_refl eq_refl ltac:(discriminate))).
Defined.

Lemma install_best_effort_witness :
  stored (precache_request example_origin "/menu") ok_response
    (snd (onInstall example_origin online fresh)).
Proof.
  refine (proj1 (proj2 (proj2 (proj2 (proj2 (proj2
            (install_best_effort example_origin online fresh eq_refl))))))
            "/menu" ok_response _ eq_refl eq_refl).
  right. right. left. reflexivity.
Defined.

Lemma activate_leaves_current_store_witness :
  names (storage (snd (onActivate upgraded))) = [CACHE_NAME].
Proof.
  refine (proj1 (proj2 (activate_leaves_current_store upgraded _ _))).
  - repeat constructor; simpl; intuition discriminate.
  - right. left. reflexivity.
Defined.

Lemma cross_origin_unhandled_witness :
  onFetch example_origin online get_foreign_font upgraded = (Ok Unhandled, upgraded).
Proof.
  apply cross_origin_unhandled. discriminate.
Defined.

Lemma onFetch_dispatch_witness :
  onFetch example_origin online get_script fresh
  = respondWith (cacheFirst online get_script) fresh.
Proof.
  exact (onFetch_dispatch example_origin online get_script fresh eq_refl).
Defined.

End SWFacts.

(** ** The API helper *)

Module AppFacts.
Import JS App ApiSpec Examples.
#[local] Open Scope list_scope.

Section ApiFacts.
Variable network : string -> RequestInit -> option App.Response.
Variable JSON_parse : string -> option JSON.

Lemma or_default_message (error message : option JSON) :
  to_string (or_default (if truthy error then error else message)
               (JString "Something went wrong."))
  = message_of error message.
Proof.
  unfold message_of, truthy_value, or_default.
  destruct (truthy error) eqn:He.
  - destruct error as [v|]; [rewrite He; reflexivity | discriminate].
  - destruct message as [v|]; [|reflexivity].
    destruct (truthy (Some v)); reflexivity.
Qed.

Lemma api_run (url : string) (method : option string) (body : option JSON)
    (response : App.Response) (w : World) :
  network url (api_options method body) = Some response ->
  api network JSON_parse url method body w =
    let w1 := w ++ [App.EvFetch url (api_options method body)] in
    match JSON_parse (text response) with
    | None =>
        if App.ok response then (Ok (JObject []), w1)
        else (Throw (Error ("HTTP " ++ pretty (App.status response)
                              ++ ": Non-JSON response")%string),
              w1 ++ [EvToast "Something went wrong." "error"])
    | Some data =>
        if App.ok response then (Ok data, w1)
        else
          match get_prop data "error", get_prop data "message" with
          | Ok error, Ok message =>
              (Throw (Error (message_of error message)),
               w1 ++ [EvToast (message_of error message) "error"])
          | Throw e, _ => (Throw e, w1)
          | _, Throw e => (Throw e, w1)
          end
    end.
Proof.
  intros Hnet. unfold api.
  assert (Hopt : {| method := match method with Some m => m | None => "GET" end;
                    App.headers := [("Content-Type", "application/json");
                                    ("Accept", "application/json")];
                    body := match match body with Some b => b | None => JNull end with
                            | JNull => None
                            | _ => Some (stringify match body with Some b => b | None => JNull end)
                            end |} = api_options method body).
  { unfold api_options. f_equal. destruct body as [[]|]; reflexivity. }
  cbv zeta. rewrite Hopt. unfold bind at 1. unfold try_catch at 1. unfold App.fetch.
  rewrite Hnet. unfold bind at 1. unfold try_catch, json.
  destruct (JSON_parse (text response)) as [data|].
  - unfold bind at 1. unfold ret at 1. unfold ret at 1.
    destruct (App.ok response); cbn [negb]; [reflexivity|].
    unfold bind at 1. unfold prop at 1.
    destruct data; cbn [get_prop]; try reflexivity.
    all: try (cbn [truthy]; unfold bind, ret, prop, showToast, throw; cbn [get_prop];
              rewrite ?or_default_message; reflexivity).
    rewrite <- or_default_message.
    destruct (truthy _); unfold bind, ret, prop, showToast, throw; cbn [get_prop];
      reflexivity.
  - unfold throw at 1. destruct (App.ok response); cbn [negb]; [reflexivity|].
    unfold bind, showToast, throw. reflexivity.
Qed.
Lemma get_prop_field (data : JSON) (name : string) :
  data <> JNull -> get_prop data name = Ok (field data name).
Proof. intros H. destruct data; try reflexivity. congruence. Qed.

(** C10 (amended): [api] returns normally only for an ok response.  For a
    response that is not ok the promise rejects: with the fixed HTTP-status
    error when the body is not JSON; when it is a JSON value other than
    [null], with its [error] property if that is truthy, else its [message]
    property if that is truthy, else with the text "Something went wrong.".
    For an ok response whose body is not JSON the empty object is
    returned. *)
Theorem api_settles (url : string) (method : option string) (body : option JSON)
    (response : App.Response) (w : World) :
  network url (api_options method body) = Some response ->
  let result := fst (api network JSON_parse url method body w) in
  (forall data, result = Ok data -> App.ok response = true)
  /\ (App.ok response = false ->
      (exists e, result = Throw e)
      /\ match JSON_parse (text response) with
         | None =>
             result = Throw (Error ("HTTP " ++ pretty (App.status response)
                                      ++ ": Non-JSON response")%string)
         | Some data =>
             data <> JNull ->
             result = Throw (Error (message_of (field data "error")
                                      (field data "message")))
         end)
  /\ (App.ok response = true -> JSON_parse (text response) = None ->
      result = Ok (JObject [])).
Proof.
  intros Hnet. rewrite (api_run url method body response w Hnet). cbv zeta.
  destruct (App.ok response) eqn:Hok.
  - split; [reflexivity|]. split; [discriminate|].
    intros _ Hparse. rewrite Hparse. reflexivity.
  - split; [|split; [|discriminate]].
    + intros data.
      destruct (JSON_parse (text response)) as [parsed|]; [|discriminate].
      destruct (get_prop parsed "error"); [destruct (get_prop parsed "message")|];
        discriminate.
    + intros _. destruct (JSON_parse (text response)) as [parsed|].
      * split.
        -- destruct (get_prop parsed "error"); [destruct (get_prop parsed "message")|];
             eexists; reflexivity.
        -- intros Hnull. rewrite !(get_prop_field parsed _ Hnull). reflexivity.
      * split; [eexists|]; reflexivity.
Qed.

End ApiFacts.

(** C10 as stated fails: a 500 response whose body is the empty JSON object
    is rejected with the fixed text, which the server did not provide. *)
Lemma api_server_message_counterexample : ~ rejects_with_server_message.
Proof.
  intros H.
  destruct (H failing_server parse_empty_object "/api/orders" None None server_error
              (JObject []) [] eq_refl eq_refl eq_refl)
    as [message [[v [[Hv | Hv] _]] _]]; discriminate.
Qed.

Lemma api_settles_witness :
  fst (api failing_server parse_empty_object "/api/orders" None None [])
  = Throw (Error "Something went wrong.").
Proof.
  exact (proj2 (proj1 (proj2
           (api_settles failing_server parse_empty_object "/api/orders" None None
              server_error [] eq_refl)) eq_refl) ltac:(discriminate)).
Defined.

End AppFacts.

(** * Further properties *)

(** ** The service worker *)

Module SWMore.
Import JS Regex SW Spec Facts Examples MoreExamples RegexFacts SWFacts.
#[local] Open Scope list_scope.

Lemma ends_with_iff (suffix s : string) :
  ends_with suffix s = true <-> exists stem, s = (stem ++ suffix)%string.
Proof.
  induction s as [|c s IH]; cbn [ends_with].
  - rewrite orb_false_r, String.eqb_eq. split.
    + intros H. exists ""%string. exact H.
    + intros [[|d stem] H]; [exact H|].
      change (""%string = String d (stem ++ suffix)%string) in H. discriminate.
  - rewrite orb_true_iff, String.eqb_eq, IH. split.
    + intros [H | [stem H]].
      * exists ""%string. exact H.
      * exists (String c stem). rewrite H. reflexivity.
    + intros [[|d stem] H].
      * left. exact H.
      * right. exists stem.
        change (String c s = String d (stem ++ suffix)%string) in H.
        injection H as _ H. exact H.
Qed.

(** X1: a path is a static asset exactly when it ends with a dot and one of
    the twelve extensions. *)
Theorem isStaticAsset_iff (pathname : string) :
  isStaticAsset pathname = true
  <-> exists stem ext,
        In ext STATIC_EXTENSIONS /\ pathname = (stem ++ "." ++ ext)%string.
Proof.
  rewrite isStaticAsset_extension. unfold has_static_extension.
  rewrite existsb_exists. split.
  - intros [ext [Hin H]]. apply ends_with_iff in H. destruct H as [stem H].
    exists stem, ext. split; assumption.
  - intros [stem [ext [Hin H]]]. exists ext. split; [exact Hin|].
    apply ends_with_iff. exists stem. exact H.
Qed.

Section Frame.
Variable self_origin : string.
Variable network : Request -> option Response.

Lemma storage_match_open (k : string * string) (s : CacheStorage) :
  storage_match k (storage_open CACHE_NAME s) = storage_match k s.
Proof.
  unfold storage_open. destruct (has_cache CACHE_NAME s); [reflexivity|].
  induction s as [|[n c] s IH]; simpl; [reflexivity|].
  destruct (c !! k); [reflexivity | exact IH].
Qed.

Lemma sole_holder_open (k : string * string) (s : CacheStorage) :
  sole_holder k s -> sole_holder k (storage_open CACHE_NAME s).
Proof.
  intros H name c Hin Hne. unfold storage_open in Hin.
  destruct (has_cache CACHE_NAME s); [exact (H name c Hin Hne)|].
  apply in_app_or in Hin. destruct Hin as [Hin | [Heq | []]].
  - exact (H name c Hin Hne).
  - injection Heq as Hn _. congruence.
Qed.

Lemma storage_match_put (k : string * string) (r : Response) (s : CacheStorage) :
  sole_holder k s -> has_cache CACHE_NAME s = true ->
  storage_match k (storage_put CACHE_NAME k r s) = Some r.
Proof.
  unfold has_cache, names. induction s as [|[n c] s IH]; intros Hsole Hhas;
    [discriminate|].
  cbn [existsb List.map fst] in Hhas. cbn [storage_put List.map fst snd].
  rewrite (String.eqb_sym CACHE_NAME n) in Hhas.
  destruct (String.eqb n CACHE_NAME) eqn:E.
  - cbn [storage_match]. rewrite lookup_insert_eq. reflexivity.
  - cbn [storage_match]. apply String.eqb_neq in E.
    rewrite (Hsole n c (or_introl eq_refl) E).
    apply IH; [|exact Hhas].
    intros name d Hin. apply Hsole. right. exact Hin.
Qed.

Lemma storage_match_written (request : Request) (response : Response) (w : World)
    (events : list Event) :
  sole_holder (key_of request) (storage w) ->
  storage_match (key_of request) (storage (written request response w events))
  = Some response.
Proof.
  intros H. apply storage_match_put; [apply sole_holder_open, H | apply has_cache_open].
Qed.

Lemma miss_sole_holder (k : string * string) (s : CacheStorage) :
  storage_match k s = None -> sole_holder k s.
Proof.
  induction s as [|[n c] s IH]; intros Hmiss name d Hin Hne; [destruct Hin|].
  simpl in Hmiss. destruct (c !! k) eqn:E; [discriminate|].
  destruct Hin as [Heq | Hin].
  - injection Heq as _ <-. exact E.
  - exact (IH Hmiss name d Hin Hne).
Qed.

(** X2: a static asset fetched once, with a response that [cache.put]
    accepts (a GET over http or https, answered ok, not with 206 and without
    [Vary: *]), is served from the cache afterwards, without a fetch. *)
Theorem cacheFirst_round_trip (network' : Request -> option Response)
    (request : Request) (response : Response) (w : World) :
  storage_match (key_of request) (storage w) = None ->
  network request = Some response ->
  ok response = true ->
  put_accepts request response = true ->
  let w1 := snd (cacheFirst network request w) in
  cacheFirst network' request w1 = (Ok response, logged w1 [EvMatch request]).
Proof.
  intros Hmiss Hnet Hok Hput. cbv zeta.
  rewrite (cacheFirst_run network request w), Hmiss, Hnet, Hok. cbn [snd].
  unfold after_put. rewrite Hput.
  rewrite cacheFirst_run, storage_match_written; [reflexivity|].
  apply miss_sole_holder, Hmiss.
Qed.

(** Without that condition the second call finds nothing: after a 206 the
    asset is not in the cache and the offline answer is the 503. *)
Lemma cacheFirst_partial_not_served :
  fst (cacheFirst offline get_script (snd (cacheFirst ranged get_script fresh)))
  = Ok asset_unavailable.
Proof. rewrite !cacheFirst_run. reflexivity. Qed.

(** X3: a GET answered ok by the network, with a response that [cache.put]
    accepts (over http or https, not a 206, no [Vary: *]), is answered with
    the same response when the network is down, no other store holding an
    entry for it. *)
Theorem networkFirst_round_trip (network' : Request -> option Response)
    (request : Request) (response : Response) (w : World) :
  SW.method request = "GET" ->
  network request = Some response ->
  ok response = true ->
  put_accepts request response = true ->
  sole_holder (key_of request) (storage w) ->
  network' request = None ->
  fst (networkFirst network' request (snd (networkFirst network request w)))
  = Ok response.
Proof.
  intros Hget Hnet Hok Hput Hsole Hdown.
  rewrite (networkFirst_run network request w), Hnet, Hget, Hok.
  change (String.eqb "GET" "GET" && true) with true. cbn [snd].
  unfold after_put. rewrite Hput.
  rewrite networkFirst_run, Hdown, storage_match_written; [reflexivity | exact Hsole].
Qed.

(** Without that condition nothing was stored: after a 206 the offline
    answer is the JSON error. *)
Lemma networkFirst_partial_not_served :
  fst (networkFirst offline get_orders (snd (networkFirst ranged get_orders fresh)))
  = Ok offline_json.
Proof. rewrite !networkFirst_run. reflexivity. Qed.


Lemma snd_respondWith (strategy : M World Response) (w : World) :
  snd (respondWith strategy w) = snd (strategy w).
Proof.
  unfold respondWith, bind. destruct (strategy w) as [[response|e] w']; reflexivity.
Qed.

Lemma fst_respondWith (strategy : M World Response) (w : World) (response : Response) :
  fst (strategy w) = Ok response ->
  fst (respondWith strategy w) = Ok (RespondedWith response).
Proof.
  unfold respondWith, bind. destruct (strategy w) as [[r|e] w']; simpl; congruence.
Qed.

Lemma logged_nil (w : World) : logged w [] = w.
Proof. destruct w. unfold logged. simpl. rewrite app_nil_r. reflexivity. Qed.

Lemma after_put_effect (request : Request) (response : Response) (w : World)
    (events : list Event) :
  exists events',
    after_put request response w events = logged w events'
    \/ after_put request response w events = opened w events'
    \/ exists response', after_put request response w events
                         = written request response' w events'.
Proof.
  exists events. unfold after_put. destruct (put_accepts request response).
  - right. right. exists response. reflexivity.
  - right. left. reflexivity.
Qed.

Lemma cacheFirst_effect (request : Request) (w : World) :
  strategy_effect request w (snd (cacheFirst network request w)).
Proof.
  rewrite cacheFirst_run. unfold strategy_effect.
  destruct (storage_match _ _); [eexists; left; reflexivity|].
  destruct (network request) as [response|]; [|eexists; left; reflexivity].
  destruct (ok response); [apply after_put_effect | eexists; left; reflexivity].
Qed.

Lemma networkFirst_effect (request : Request) (w : World) :
  strategy_effect request w (snd (networkFirst network request w)).
Proof.
  rewrite networkFirst_run. unfold strategy_effect.
  destruct (network request) as [response|]; [|eexists; left; reflexivity].
  destruct (_ && _); [apply after_put_effect | eexists; left; reflexivity].
Qed.

Lemma networkFirstNavigation_effect (request : Request) (w : World) :
  strategy_effect request w (snd (networkFirstNavigation network request w)).
Proof.
  rewrite networkFirstNavigation_run. unfold strategy_effect.
  destruct (network request) as [response|]; [|eexists; left; reflexivity].
  destruct (ok response); [apply after_put_effect | eexists; left; reflexivity].
Qed.

Lemma onFetch_effect (request : Request) (w : World) :
  strategy_effect request w (snd (onFetch self_origin network request w)).
Proof.
  unfold onFetch. destruct (negb _).
  - exists []. left. symmetry. apply logged_nil.
  - destruct (String.prefix _ _);
      [rewrite snd_respondWith; apply networkFirst_effect|].
    destruct (isStaticAsset _);
      [rewrite snd_respondWith; apply cacheFirst_effect|].
    destruct (String.eqb _ _); rewrite snd_respondWith;
      [apply networkFirstNavigation_effect | apply networkFirst_effect].
Qed.

Lemma storage_lookup_put_other (name : string) (k k' : string * string) (r : Response)
    (s : CacheStorage) :
  name <> CACHE_NAME ->
  storage_lookup name k (storage_put CACHE_NAME k' r s) = storage_lookup name k s.
Proof.
  intros Hne. unfold storage_lookup, storage_put.
  induction s as [|[n c] s IH]; [reflexivity|]. cbn [List.map fst snd].
  destruct (String.eqb n CACHE_NAME) eqn:E; cbn [List.find fst].
  - apply String.eqb_eq in E. subst n.
    apply String.eqb_neq in Hne. rewrite String.eqb_sym in Hne. rewrite Hne. exact IH.
  - destruct (String.eqb n name); [reflexivity | exact IH].
Qed.

Lemma names_open_incl (name : string) (s : CacheStorage) :
  In name (names s) -> In name (names (storage_open CACHE_NAME s)).
Proof.
  unfold storage_open. destruct (has_cache CACHE_NAME s); [tauto|].
  unfold names. rewrite List.map_app. intros H. apply in_or_app. left. exact H.
Qed.

(** X6: the fetch handler writes to the current store only and deletes no store. *)
Theorem onFetch_frame (request : Request) (w : World) :
  let w' := snd (onFetch self_origin network request w) in
  (forall name k, name <> CACHE_NAME ->
     storage_lookup name k (storage w') = storage_lookup name k (storage w))
  /\ (forall name, In name (names (storage w)) -> In name (names (storage w'))).
Proof.
  cbv zeta. destruct (onFetch_effect request w) as [events [H | [H | [response H]]]];
    rewrite H; cbn [logged opened written storage].
  - split; [reflexivity | tauto].
  - split.
    + intros name k _. apply storage_lookup_open.
    + intros name Hin. apply names_open_incl, Hin.
  - split.
    + intros name k Hne.
      rewrite storage_lookup_put_other by exact Hne. apply storage_lookup_open.
    + intros name Hin. rewrite names_storage_put. apply names_open_incl, Hin.
Qed.

Lemma networkFirst_source (request : Request) (w : World) :
  exists response,
    fst (networkFirst network request w) = Ok response
    /\ response_source network request w response.
Proof.
  rewrite networkFirst_run. unfold response_source.
  destruct (network request) as [response|].
  - exists response. split; [reflexivity | left; reflexivity].
  - destruct (storage_match _ _) as [cached|]; eexists; (split; [reflexivity|]);
      right; [left; reflexivity | right; right; left; reflexivity].
Qed.

Lemma cacheFirst_source (request : Request) (w : World) :
  exists response,
    fst (cacheFirst network request w) = Ok response
    /\ response_source network request w response.
Proof.
  rewrite cacheFirst_run. unfold response_source.
  destruct (storage_match _ _) as [cached|] eqn:Hm.
  - exists cached. split; [reflexivity | right; left; reflexivity].
  - destruct (network request) as [response|].
    + exists response. split; [reflexivity | left; reflexivity].
    + exists asset_unavailable. split; [reflexivity | right; right; left; reflexivity].
Qed.

Lemma networkFirstNavigation_source (request : Request) (w : World) :
  exists response,
    fst (networkFirstNavigation network request w) = Ok response
    /\ response_source network request w response.
Proof.
  rewrite networkFirstNavigation_run. unfold response_source.
  destruct (network request) as [response|].
  - exists response. split; [reflexivity | left; reflexivity].
  - destruct (storage_match _ _) as [cached|]; eexists; (split; [reflexivity|]);
      right; [left; reflexivity | right; right; right; left; reflexivity].
Qed.

(** X7: a same-origin request always gets a response, never a rejection. *)
Theorem onFetch_always_responds (request : Request) (w : World) :
  origin (url request) = self_origin ->
  exists response,
    fst (onFetch self_origin network request w) = Ok (RespondedWith response)
    /\ response_source network request w response.
Proof.
  intros Ho. unfold onFetch. rewrite Ho, String.eqb_refl. cbn [negb].
  destruct (String.prefix _ _);
    [destruct (networkFirst_source request w) as [response [Hr Hsrc]]
    |destruct (isStaticAsset _);
       [destruct (cacheFirst_source request w) as [response [Hr Hsrc]]
       |destruct (String.eqb _ _);
          [destruct (networkFirstNavigation_source request w) as [response [Hr Hsrc]]
          |destruct (networkFirst_source request w) as [response [Hr Hsrc]]]]];
    exists response; (split; [apply fst_respondWith, Hr | exact Hsrc]).
Qed.

(** X8: a navigation that reaches neither the network nor a cached copy gets
    the offline page. *)
Theorem navigation_offline_page (request : Request) (w : World) :
  origin (url request) = self_origin ->
  String.prefix "/api/" (pathname (url request)) = false ->
  isStaticAsset (pathname (url request)) = false ->
  mode request = "navigate" ->
  network request = None ->
  storage_match (key_of request) (storage w) = None ->
  onFetch self_origin network request w
  = (Ok (RespondedWith offline_page), logged w [SW.EvFetch request; EvMatch request]).
Proof.
  intros Ho Hapi Hstatic Hmode Hnet Hmiss. unfold onFetch.
  rewrite Ho, String.eqb_refl, Hapi, Hstatic, Hmode. cbn [negb].
  change (String.eqb "navigate" "navigate") with true. cbv iota.
  unfold respondWith, bind. rewrite networkFirstNavigation_run, Hnet, Hmiss. reflexivity.
Qed.

End Frame.

Section LifecycleMore.
Variable self_origin : string.
Variable network : Request -> option Response.

Lemma has_cache_In (name : string) (s : CacheStorage) :
  has_cache name s = true <-> In name (names s).
Proof.
  unfold has_cache. rewrite existsb_exists. split.
  - intros [n [Hin Heq]]. apply String.eqb_eq in Heq. subst n. exact Hin.
  - intros Hin. exists name. split; [exact Hin | apply String.eqb_refl].
Qed.

Lemma NoDup_names_open (s : CacheStorage) :
  List.NoDup (names s) -> List.NoDup (names (storage_open CACHE_NAME s)).
Proof.
  intros Hnd. unfold storage_open. destruct (has_cache CACHE_NAME s) eqn:E; [exact Hnd|].
  unfold names. rewrite List.map_app. cbn [List.map fst].
  apply List.NoDup_app; [exact Hnd | repeat constructor; tauto |].
  intros name Hin [Heq | []]. subst name.
  apply has_cache_In in Hin. congruence.
Qed.

(** X9: install followed by activate leaves the current store alone. *)
Theorem install_then_activate (w : World) :
  List.NoDup (names (storage w)) ->
  let w1 := snd (onInstall self_origin network w) in
  let w2 := snd (onActivate w1) in
  fst (onActivate w1) = Ok tt
  /\ names (storage w2) = [CACHE_NAME]
  /\ (forall k, storage_lookup CACHE_NAME k (storage w2)
               = storage_lookup CACHE_NAME k (storage w1)).
Proof.
  intros Hnd. cbv zeta. rewrite onInstall_run, onActivate_run. cbn [fst snd storage].
  destruct (filter_current_unique
              (precache_storage self_origin network PRECACHE_URLS
                 (storage_open CACHE_NAME (storage w)))) as [c [Hf Hfind]].
  - rewrite names_precache_storage. apply NoDup_names_open, Hnd.
  - rewrite names_precache_storage. apply has_cache_In, has_cache_open.
  - rewrite Hf. split; [reflexivity|]. split; [reflexivity|].
    intros k. unfold storage_lookup. rewrite Hfind. reflexivity.
Qed.

Lemma filter_idem {A} (f : A -> bool) (l : list A) :
  List.filter f (List.filter f l) = List.filter f l.
Proof.
  induction l as [|x l IH]; [reflexivity|]. simpl.
  destruct (f x) eqn:E; simpl; rewrite ?E, IH; reflexivity.
Qed.

Lemma no_old_names_after_activate (s : CacheStorage) :
  List.filter (fun name => negb (String.eqb name CACHE_NAME))
    (names (List.filter (fun e => String.eqb (fst e) CACHE_NAME) s)) = [].
Proof.
  induction s as [|[n c] s IH]; [reflexivity|]. cbn [List.filter fst].
  destruct (String.eqb n CACHE_NAME) eqn:E; [|exact IH].
  cbn [names List.map List.filter fst]. rewrite E. exact IH.
Qed.

(** X10: a second activation deletes nothing. *)
Theorem activate_idempotent (w : World) :
  let w1 := snd (onActivate w) in
  onActivate w1 = (Ok tt, logged w1 [EvKeys; EvClientsClaim]).
Proof.
  cbv zeta. rewrite (onActivate_run w). cbn [snd]. rewrite onActivate_run.
  unfold logged. cbn [storage trace].
  rewrite filter_idem, no_old_names_after_activate. reflexivity.
Qed.


Lemma sole_holder_put (k k' : string * string) (r : Response) (s : CacheStorage) :
  sole_holder k s -> sole_holder k (storage_put CACHE_NAME k' r s).
Proof.
  intros Hsole name c Hin Hne. unfold storage_put in Hin.
  apply List.in_map_iff in Hin. destruct Hin as [[n d] [Heq Hin]]. cbn [fst snd] in Heq.
  destruct (String.eqb n CACHE_NAME) eqn:E.
  - apply String.eqb_eq in E. injection Heq as Hn _. congruence.
  - injection Heq as -> ->. exact (Hsole name c Hin Hne).
Qed.

Lemma storage_match_put_ne (k k' : string * string) (r : Response) (s : CacheStorage) :
  k' <> k ->
  storage_match k (storage_put CACHE_NAME k' r s) = storage_match k s.
Proof.
  intros Hne. induction s as [|[n c] s IH]; [reflexivity|].
  cbn [storage_put List.map fst snd]. destruct (String.eqb n CACHE_NAME);
    cbn [storage_match]; fold (storage_put CACHE_NAME k' r s);
    rewrite ?lookup_insert_ne by exact Hne; rewrite IH; reflexivity.
Qed.

Lemma sole_holder_precache (k : string * string) (paths : list string) (s : CacheStorage) :
  sole_holder k s -> sole_holder k (precache_storage self_origin network paths s).
Proof.
  intros Hsole. induction paths as [|path paths IH] using rev_ind; [exact Hsole|].
  rewrite precache_storage_snoc. cbv zeta.
  destruct (precached _ _ _) as [response|]; [apply sole_holder_put, IH | exact IH].
Qed.

Lemma precache_storage_match (paths : list string) (s : CacheStorage) (path : string)
    (response : Response) :
  sole_holder (key_of (precache_request self_origin path)) s ->
  has_cache CACHE_NAME s = true ->
  In path paths ->
  precached self_origin network path = Some response ->
  storage_match (key_of (precache_request self_origin path))
    (precache_storage self_origin network paths s) = Some response.
Proof.
  intros Hsole Hhas Hin Hpre.
  induction paths as [|p paths IH] using rev_ind; [destruct Hin|].
  rewrite precache_storage_snoc. cbv zeta.
  assert (Hhas' : has_cache CACHE_NAME (precache_storage self_origin network paths s)
                  = true).
  { unfold has_cache. rewrite names_precache_storage. exact Hhas. }
  destruct (string_dec p path) as [-> | Hp].
  - rewrite Hpre. apply storage_match_put; [|exact Hhas'].
    apply sole_holder_precache, Hsole.
  - apply in_app_or in Hin. destruct Hin as [Hin | [Heq | []]]; [|congruence].
    destruct (precached self_origin network p) as [r|]; [|exact (IH Hin)].
    rewrite storage_match_put_ne; [exact (IH Hin)|].
    intros Hk. apply Hp. apply (precache_key_inj self_origin). exact Hk.
Qed.

(** X11: a precache entry that install fetched and [cache.add] accepted (the
    worker's origin is http or https; the response is ok, not a 206, has no
    [Vary: *]) is answered by the fetch handler when the network is down,
    whatever the class of the request.  The response names no request header
    in [Vary], so that the lookup is by method and URL alone. *)
Theorem precached_served_offline (network' : Request -> option Response)
    (path : string) (response : Response) (request : Request) (w : World) :
  http_origin self_origin = true ->
  In path PRECACHE_URLS ->
  network (precache_request self_origin path) = Some response ->
  add_accepts response = true ->
  vary_values response = [] ->
  sole_holder (key_of request) (storage w) ->
  SW.method request = "GET" ->
  url request = {| origin := self_origin; pathname := path; search := "" |} ->
  network' request = None ->
  fst (onFetch self_origin network' request (snd (onInstall self_origin network w)))
  = Ok (RespondedWith response).
Proof.
  intros Hhttp Hin Hnet Hadd _ Hsole Hget Hurl Hdown.
  assert (Hkey : key_of request = key_of (precache_request self_origin path)).
  { unfold key_of, precache_request. rewrite Hget, Hurl. reflexivity. }
  assert (Hpre : precached self_origin network path = Some response).
  { unfold precached, http_scheme, precache_request. cbn [url origin].
    rewrite Hhttp. fold (precache_request self_origin path). rewrite Hnet, Hadd.
    reflexivity. }
  assert (Hhit : storage_match (key_of request)
                   (storage (snd (onInstall self_origin network w))) = Some response).
  { rewrite onInstall_run. cbn [snd storage]. rewrite Hkey.
    apply precache_storage_match; try assumption.
    - rewrite <- Hkey. apply sole_holder_open, Hsole.
    - apply has_cache_open. }
  unfold onFetch. rewrite Hurl. cbn [origin pathname]. rewrite String.eqb_refl.
  cbn [negb].
  destruct (String.prefix _ _);
    [|destruct (isStaticAsset _); [|destruct (String.eqb _ _)]];
    apply fst_respondWith.
  - rewrite networkFirst_run, Hdown, Hhit. reflexivity.
  - rewrite cacheFirst_run, Hhit. reflexivity.
  - rewrite networkFirstNavigation_run, Hdown, Hhit. reflexivity.
  - rewrite networkFirst_run, Hdown, Hhit. reflexivity.
Qed.

(** An entry that [cache.add] refused is not served: after an install
    answered with 206 the offline navigation gets the offline page. *)
Lemma precache_partial_not_served :
  fst (onFetch example_origin offline get_tables_page
         (snd (onInstall example_origin ranged fresh)))
  = Ok (RespondedWith offline_page).
Proof. vm_compute. reflexivity. Qed.

End LifecycleMore.

(** *** The theorems at concrete requests *)

Lemma cacheFirst_round_trip_witness :
  cacheFirst offline get_script (snd (cacheFirst online get_script fresh))
  = (Ok ok_response,
     logged (snd (cacheFirst online get_script fresh)) [EvMatch get_script]).
Proof.
  exact (cacheFirst_round_trip online offline get_script ok_response fresh
           eq_refl eq_refl eq_refl eq_refl).
Defined.

Lemma networkFirst_round_trip_witness :
  fst (networkFirst offline get_orders (snd (networkFirst online get_orders fresh)))
  = Ok ok_response.
Proof.
  apply (networkFirst_round_trip online offline get_orders ok_response fresh);
    try reflexivity.
  intros name c [].
Defined.

Lemma onFetch_always_responds_witness :
  exists response,
    fst (onFetch example_origin offline get_orders fresh) = Ok (RespondedWith response)
    /\ response_source offline get_orders fresh response.
Proof.
  exact (onFetch_always_responds example_origin offline get_orders fresh eq_refl).
Defined.

Lemma navigation_offline_page_witness :
  onFetch example_origin offline get_orders_page fresh
  = (Ok (RespondedWith offline_page),
     logged fresh [SW.EvFetch get_orders_page; EvMatch get_orders_page]).
Proof.
  apply navigation_offline_page; reflexivity.
Defined.

Lemma install_then_activate_witness :
  names (storage (snd (onActivate (snd (onInstall example_origin online upgraded)))))
  = [CACHE_NAME].
Proof.
  refine (proj1 (proj2 (install_then_activate example_origin online upgraded _))).
  repeat constructor; simpl; intuition discriminate.
Defined.

Lemma precached_served_offline_witness :
  fst (onFetch example_origin offline get_tables_page
         (snd (onInstall example_origin online fresh)))
  = Ok (RespondedWith ok_response).
Proof.
  apply (precached_served_offline example_origin online offline "/tables");
    try reflexivity.
  - right. left. reflexivity.
  - intros name c [].
Defined.

Lemma networkFirstNavigation_get_witness :
  networkFirstNavigation offline get_tables_page fresh
  = (Ok offline_page, snd (networkFirst offline get_tables_page fresh)).
Proof.
  exact (networkFirstNavigation_get offline get_tables_page fresh eq_refl).
Defined.

End SWMore.

(** ** The API helper *)

Module AppMore.
Import JS App ApiSpec Examples MoreExamples AppFacts.
#[local] Open Scope list_scope.

Section ApiMore.
Variable network : string -> RequestInit -> option App.Response.
Variable JSON_parse : string -> option JSON.

Lemma api_options_eq (method : option string) (body : option JSON) :
  {| method := match method with Some m => m | None => "GET" end;
     App.headers := [("Content-Type", "application/json"); ("Accept", "application/json")];
     body := match match body with Some b => b | None => JNull end with
             | JNull => None
             | _ => Some (stringify match body with Some b => b | None => JNull end)
             end |} = api_options method body.
Proof. unfold api_options. f_equal. destruct body as [[]|]; reflexivity. Qed.

(** X12: a failed fetch is announced once and rethrown. *)
Theorem api_network_failure (url : string) (method : option string) (body : option JSON)
    (w : World) :
  network url (api_options method body) = None ->
  api network JSON_parse url method body w
  = (Throw (TypeError "Failed to fetch"),
     w ++ [App.EvFetch url (api_options method body);
           EvToast "Network error. Please check your connection." "error"]).
Proof.
  intros Hnet. unfold api. cbv zeta. rewrite api_options_eq.
  unfold bind at 1. unfold try_catch at 1. unfold App.fetch. rewrite Hnet.
  unfold bind, showToast, throw. rewrite <- app_assoc. reflexivity.
Qed.

(** X13: one fetch per call, and one toast exactly when the call is rejected
    with an [Error]: the message of the error when the body was JSON, the
    fixed text when it was not. *)
Theorem api_toast_matches_rejection (url : string) (method : option string)
    (body : option JSON) (response : App.Response) (w : World) :
  network url (api_options method body) = Some response ->
  snd (api network JSON_parse url method body w)
  = w ++ App.EvFetch url (api_options method body)
         :: match fst (api network JSON_parse url method body w) with
            | Throw (Error message) =>
                [EvToast match JSON_parse (text response) with
                         | Some _ => message
                         | None => "Something went wrong."
                         end "error"]
            | _ => []
            end.
Proof.
  intros Hnet. rewrite (api_run network JSON_parse url method body response w Hnet).
  cbv zeta.
  destruct (JSON_parse (text response)) as [data|];
    destruct (App.ok response); cbn [fst snd]; rewrite <- ?app_assoc; try reflexivity.
  destruct data; cbn [get_prop fst snd]; rewrite <- ?app_assoc; reflexivity.
Qed.

(** X14: a failed response whose body is the JSON [null] is rejected with a
    [TypeError] and without a toast. *)
Theorem api_null_body (url : string) (method : option string) (body : option JSON)
    (response : App.Response) (w : World) :
  network url (api_options method body) = Some response ->
  App.ok response = false ->
  JSON_parse (text response) = Some JNull ->
  exists message,
    api network JSON_parse url method body w
    = (Throw (TypeError message), w ++ [App.EvFetch url (api_options method body)]).
Proof.
  intros Hnet Hok Hparse.
  rewrite (api_run network JSON_parse url method body response w Hnet), Hparse, Hok.
  eexists. reflexivity.
Qed.

End ApiMore.

Lemma api_network_failure_witness :
  fst (api unreachable_server parse_null "/api/orders" None None [])
  = Throw (TypeError "Failed to fetch").
Proof.
  exact (f_equal fst
           (api_network_failure unreachable_server parse_null "/api/orders" None None []
              eq_refl)).
Defined.

Lemma api_toast_matches_rejection_witness :
  snd (api failing_server parse_empty_object "/api/orders" None None [])
  = [App.EvFetch "/api/orders" (api_options None None);
     EvToast "Something went wrong." "error"].
Proof.
  exact (api_toast_matches_rejection failing_server parse_empty_object "/api/orders"
           None None server_error [] eq_refl).
Defined.

Lemma api_null_body_witness :
  exists message,
    api null_server parse_null "/api/orders" None None []
    = (Throw (TypeError message), [App.EvFetch "/api/orders" (api_options None None)]).
Proof.
  exact (api_null_body null_server parse_null "/api/orders" None None null_error []
           eq_refl eq_refl eq_refl).
Defined.

End AppMore.

(** ** Formatting, navigation, timers, theme and install prompt *)

Module FormatFacts.
Import Format.

Section Clock.
Variable Date_parse : string -> option Z.
Variable now : Z.
Variable toLocaleDateString : Z -> string.

(** X15: the relative time of a valid date, by its age in milliseconds. *)
Theorem formatTime_by_age (iso : string) (time : Z) :
  iso <> "" ->
  Date_parse iso = Some time ->
  let age := (now - time)%Z in
  let text := formatTime Date_parse now toLocaleDateString (Some iso) in
  ((age < 10000)%Z -> text = "just now")
  /\ ((10000 <= age < 60000)%Z ->
      exists n, (10 <= n <= 59)%Z /\ (1000 * n <= age < 1000 * (n + 1))%Z
                /\ text = pretty n ++ " sec ago")
  /\ ((60000 <= age < 3600000)%Z ->
      exists n, (1 <= n <= 59)%Z /\ (60000 * n <= age < 60000 * (n + 1))%Z
                /\ text = pretty n ++ " min ago")
  /\ ((3600000 <= age < 86400000)%Z ->
      exists n, (1 <= n <= 23)%Z /\ (3600000 * n <= age < 3600000 * (n + 1))%Z
                /\ text = pretty n ++ " hr ago")
  /\ ((86400000 <= age < 172800000)%Z -> text = "1 day ago")
  /\ ((172800000 <= age < 604800000)%Z ->
      exists n, (2 <= n <= 6)%Z /\ (86400000 * n <= age < 86400000 * (n + 1))%Z
                /\ text = pretty n ++ " days ago")
  /\ ((604800000 <= age)%Z -> text = toLocaleDateString time).
Proof.
  intros Hiso Hparse. cbv zeta. unfold formatTime.
  apply String.eqb_neq in Hiso. rewrite Hiso, Hparse.
  set (age := (now - time)%Z). set (d := (age / 1000)%Z).
  assert (Hd : (1000 * d <= age < 1000 * (d + 1))%Z).
  { unfold d. pose proof (Z.div_mod age 1000 ltac:(lia)).
    pose proof (Z.mod_pos_bound age 1000 ltac:(lia)). lia. }
  repeat split; intros Hage.
  - destruct (d <? 0)%Z eqn:E0; [reflexivity|].
    destruct (d <? 10)%Z eqn:E1; [reflexivity|]. lia.
  - destruct (d <? 0)%Z eqn:E0; [lia|]. destruct (d <? 10)%Z eqn:E1; [lia|].
    destruct (d <? 60)%Z eqn:E2; [|lia].
    exists d. repeat split; lia.
  - destruct (d <? 0)%Z eqn:E0; [lia|]. destruct (d <? 10)%Z eqn:E1; [lia|].
    destruct (d <? 60)%Z eqn:E2; [lia|]. destruct (d <? 3600)%Z eqn:E3; [|lia].
    exists (d / 60)%Z.
    pose proof (Z.div_mod d 60 ltac:(lia)). pose proof (Z.mod_pos_bound d 60 ltac:(lia)).
    repeat split; lia.
  - destruct (d <? 0)%Z eqn:E0; [lia|]. destruct (d <? 10)%Z eqn:E1; [lia|].
    destruct (d <? 60)%Z eqn:E2; [lia|]. destruct (d <? 3600)%Z eqn:E3; [lia|].
    destruct (d <? 86400)%Z eqn:E4; [|lia].
    exists (d / 3600)%Z.
    pose proof (Z.div_mod d 3600 ltac:(lia)).
    pose proof (Z.mod_pos_bound d 3600 ltac:(lia)).
    repeat split; lia.
  - destruct (d <? 0)%Z eqn:E0; [lia|]. destruct (d <? 10)%Z eqn:E1; [lia|].
    destruct (d <? 60)%Z eqn:E2; [lia|]. destruct (d <? 3600)%Z eqn:E3; [lia|].
    destruct (d <? 86400)%Z eqn:E4; [lia|]. destruct (d <? 604800)%Z eqn:E5; [|lia].
    pose proof (Z.div_mod d 86400 ltac:(lia)).
    pose proof (Z.mod_pos_bound d 86400 ltac:(lia)).
    assert (Hone : (d / 86400 = 1)%Z) by lia. rewrite Hone. reflexivity.
  - destruct (d <? 0)%Z eqn:E0; [lia|]. destruct (d <? 10)%Z eqn:E1; [lia|].
    destruct (d <? 60)%Z eqn:E2; [lia|]. destruct (d <? 3600)%Z eqn:E3; [lia|].
    destruct (d <? 86400)%Z eqn:E4; [lia|]. destruct (d <? 604800)%Z eqn:E5; [|lia].
    pose proof (Z.div_mod d 86400 ltac:(lia)).
    pose proof (Z.mod_pos_bound d 86400 ltac:(lia)).
    exists (d / 86400)%Z.
    destruct (d / 86400 =? 1)%Z eqn:E6; [lia|].
    repeat split; lia.
  - destruct (d <? 0)%Z eqn:E0; [lia|]. destruct (d <? 10)%Z eqn:E1; [lia|].
    destruct (d <? 60)%Z eqn:E2; [lia|]. destruct (d <? 3600)%Z eqn:E3; [lia|].
    destruct (d <? 86400)%Z eqn:E4; [lia|]. destruct (d <? 604800)%Z eqn:E5; [lia|].
    reflexivity.
Qed.

End Clock.

Lemma formatTime_by_age_witness :
  exists n,
    (1 <= n <= 59)%Z
    /\ (60000 * n <= MoreExamples.example_now - 1767225600000
        < 60000 * (n + 1))%Z
    /\ formatTime MoreExamples.parse_example_date MoreExamples.example_now
         MoreExamples.short_date (Some "2026-01-01T00:00:00Z")
       = pretty n ++ " min ago".
Proof.
  apply (proj1 (proj2 (proj2
           (formatTime_by_age MoreExamples.parse_example_date MoreExamples.example_now
              MoreExamples.short_date "2026-01-01T00:00:00Z" 1767225600000%Z
              ltac:(discriminate) eq_refl)))).
  unfold MoreExamples.example_now. lia.
Defined.

End FormatFacts.

Module NavFacts.
Import Nav.
#[local] Open Scope list_scope.

Lemma prefix_refl (s : string) : String.prefix s s = true.
Proof.
  induction s as [|c s IH]; [reflexivity|]. simpl.
  destruct (ascii_dec c c); [exact IH | congruence].
Qed.

Lemma not_active_after_remove (classes : list string) :
  existsb (fun c => String.eqb c "active") (classList_remove "active" classes) = false.
Proof.
  unfold classList_remove. induction classes as [|c classes IH]; [reflexivity|].
  cbn [List.filter]. destruct (String.eqb c "active") eqn:E; cbn [negb]; [exact IH|].
  cbn [existsb]. rewrite E, IH. reflexivity.
Qed.

Lemma active_after_add (classes : list string) :
  existsb (fun c => String.eqb c "active") (classList_add "active" classes) = true.
Proof.
  unfold classList_add.
  destruct (existsb (fun c => String.eqb c "active") classes) eqn:E; [exact E|].
  rewrite existsb_app, E. reflexivity.
Qed.

(** X16: which links end up highlighted. *)
Theorem highlightLink_active (currentPath : string) (link : Link) :
  is_active (highlightLink currentPath link)
  = match href link with
    | Some h =>
        String.prefix h currentPath
        && (negb (String.eqb h "/") || String.eqb currentPath "/")
    | None => String.prefix "null" currentPath
    end.
Proof.
  unfold highlightLink, is_active. destruct (href link) as [h|]; cbn [toString].
  - destruct (String.eqb h currentPath) eqn:E.
    + apply String.eqb_eq in E. subst h. cbn [classList].
      rewrite active_after_add, prefix_refl.
      destruct (String.eqb currentPath "/"); reflexivity.
    + destruct (String.eqb h "/") eqn:Er; cbn [negb andb orb].
      * cbn [classList]. rewrite not_active_after_remove.
        apply String.eqb_eq in Er. subst h.
        destruct (String.eqb currentPath "/") eqn:Ec.
        -- apply String.eqb_eq in Ec. subst currentPath. discriminate.
        -- rewrite andb_false_r. reflexivity.
      * rewrite andb_true_r. destruct (String.prefix h currentPath); cbn [classList].
        -- apply active_after_add.
        -- apply not_active_after_remove.
  - cbn [negb andb]. destruct (String.prefix "null" currentPath); cbn [classList].
    + apply active_after_add.
    + apply not_active_after_remove.
Qed.

Lemma remove_add_active (classes : list string) :
  classList_remove "active" (classList_add "active" (classList_remove "active" classes))
  = classList_remove "active" classes.
Proof.
  unfold classList_add. rewrite not_active_after_remove.
  unfold classList_remove at 1. rewrite List.filter_app. cbn [List.filter String.eqb].
  change (String.eqb "active" "active") with true. cbn [negb].
  rewrite app_nil_r. fold (classList_remove "active" (classList_remove "active" classes)).
  unfold classList_remove. induction classes as [|c classes IH]; [reflexivity|].
  cbn [List.filter]. destruct (negb (String.eqb c "active")) eqn:E; cbn [List.filter];
    rewrite ?E, IH; reflexivity.
Qed.

Lemma remove_remove_active (classes : list string) :
  classList_remove "active" (classList_remove "active" classes)
  = classList_remove "active" classes.
Proof.
  unfold classList_remove. induction classes as [|c classes IH]; [reflexivity|].
  cbn [List.filter]. destruct (negb (String.eqb c "active")) eqn:E; cbn [List.filter];
    rewrite ?E, IH; reflexivity.
Qed.

(** X17: highlighting again changes nothing, and classes other than [active]
    are kept. *)
Theorem highlightActiveNav_stable (currentPath : string) (links : list Link) :
  highlightActiveNav currentPath (highlightActiveNav currentPath links)
  = highlightActiveNav currentPath links
  /\ List.map (fun link => classList_remove "active" (classList link))
       (highlightActiveNav currentPath links)
     = List.map (fun link => classList_remove "active" (classList link)) links.
Proof.
  unfold highlightActiveNav. rewrite !List.map_map. split; apply List.map_ext; intros link.
  - unfold highlightLink.
    destruct (match href link with Some h => String.eqb h currentPath | None => false end)
      eqn:E1; cbn [href classList].
    + rewrite E1, remove_add_active. reflexivity.
    + destruct (negb _ && _) eqn:E2; cbn [href classList]; rewrite E1, E2.
      * rewrite remove_add_active. reflexivity.
      * rewrite remove_remove_active. reflexivity.
  - unfold highlightLink.
    destruct (match href link with Some h => String.eqb h currentPath | None => false end);
      [|destruct (negb _ && _)]; cbn [classList];
      rewrite ?remove_add_active, ?remove_remove_active; reflexivity.
Qed.

End NavFacts.

Module AutoRefreshFacts.
Import AutoRefresh.
#[local] Open Scope list_scope.

Section Refresh.
Context {Callback : Type}.
Implicit Types (p : Page Callback) (ops : list (Op Callback)).

Lemma consistent_stop p : consistent p -> consistent (stopAutoRefresh p).
Proof.
  unfold consistent, stopAutoRefresh. destruct (autoRefreshInterval p) as [id|] eqn:E.
  - intros [callback [ms [_ Hi]]]. cbn [autoRefreshInterval autoRefreshCallback intervals].
    split; [reflexivity|]. rewrite Hi. apply delete_singleton_eq.
  - rewrite E. tauto.
Qed.

Lemma stop_inactive p :
  consistent p ->
  autoRefreshInterval (stopAutoRefresh p) = None
  /\ intervals (stopAutoRefresh p) = ∅
  /\ refreshed (stopAutoRefresh p) = refreshed p
  /\ next_id (stopAutoRefresh p) = next_id p.
Proof.
  intros H. pose proof (consistent_stop p H) as Hs. unfold consistent in Hs.
  unfold stopAutoRefresh in *. destruct (autoRefreshInterval p) as [id|] eqn:E.
  - cbn [autoRefreshInterval autoRefreshCallback intervals refreshed next_id] in *.
    destruct Hs as [_ Hs]. repeat split; assumption.
  - rewrite E in Hs. destruct Hs as [_ Hs]. repeat split; assumption.
Qed.

Lemma consistent_start p (callback : Callback) (ms : option Z) :
  consistent p -> consistent (startAutoRefresh callback ms p).
Proof.
  intros H. destruct (stop_inactive p H) as [_ [Hi _]].
  unfold consistent, startAutoRefresh.
  cbn [autoRefreshInterval autoRefreshCallback intervals].
  eexists _, _. split; [reflexivity|]. rewrite Hi. reflexivity.
Qed.

Lemma consistent_step p (op : Op Callback) : consistent p -> consistent (step p op).
Proof.
  intros H. destruct op as [callback ms | | callback ms | id hidden onLine]; cbn [step].
  - apply consistent_start, H.
  - apply consistent_stop, H.
  - unfold toggleAutoRefresh. destruct (isAutoRefreshActive p); cbn [snd].
    + apply consistent_stop, H.
    + destruct callback as [c|]; [apply consistent_start, H|].
      destruct (autoRefreshCallback p); [apply consistent_start, H | exact H].
  - unfold tick. destruct (intervals p !! id) as [[c ms]|]; [|exact H].
    destruct (negb hidden && onLine); exact H.
Qed.

Lemma consistent_run ops p : consistent p -> consistent (run ops p).
Proof.
  revert p. induction ops as [|op ops IH]; intros p H; [exact H|].
  apply IH, consistent_step, H.
Qed.

(** X18: only one auto-refresh at a time. *)
Theorem one_interval_at_a_time ops (first_id : nat) :
  let p := run ops (initial first_id) in
  consistent p
  /\ size (intervals p) = (if isAutoRefreshActive p then 1 else 0).
Proof.
  cbv zeta. assert (H : consistent (run ops (initial (Callback := Callback) first_id))).
  { apply consistent_run. split; reflexivity. }
  split; [exact H|]. unfold consistent, isAutoRefreshActive in *.
  destruct (autoRefreshInterval _) as [id|].
  - destruct H as [c [ms [_ Hi]]]. rewrite Hi. apply map_size_singleton.
  - destruct H as [_ Hi]. rewrite Hi. apply map_size_empty.
Qed.

(** X19: after a stop no tick refreshes, and after a start only the new
    callback is ever invoked. *)
Theorem tick_only_current ops (first_id id : nat) (hidden onLine : bool)
    (callback : Callback) (ms : option Z) :
  let p := run ops (initial first_id) in
  tick id hidden onLine (stopAutoRefresh p) = stopAutoRefresh p
  /\ (refreshed (tick id hidden onLine (startAutoRefresh callback ms p)) = refreshed p
      \/ (hidden = false /\ onLine = true
          /\ refreshed (tick id hidden onLine (startAutoRefresh callback ms p))
             = refreshed p ++ [callback])).
Proof.
  cbv zeta. assert (H : consistent (run ops (initial (Callback := Callback) first_id))).
  { apply consistent_run. split; reflexivity. }
  set (p := run ops (initial first_id)) in *.
  destruct (stop_inactive p H) as [Hint [Hi [Hr Hn]]]. split.
  - unfold tick. rewrite Hi, lookup_empty. reflexivity.
  - unfold tick, startAutoRefresh. cbn [intervals refreshed]. rewrite Hi, Hr.
    destruct (decide (next_id (stopAutoRefresh p) = id)) as [<- | Hne].
    + rewrite lookup_insert_eq. destruct hidden, onLine; cbn [negb andb refreshed];
        rewrite ?Hr; auto.
    + rewrite lookup_insert_ne, lookup_empty by exact Hne. cbn [refreshed].
      left. rewrite ?Hr. reflexivity.
Qed.

(** X20: without a callback argument [toggleAutoRefresh] never resumes. *)
Theorem toggle_without_callback_is_off ops (first_id : nat) (ms : option Z) :
  let p := run ops (initial first_id) in
  fst (toggleAutoRefresh None ms p) = false
  /\ isAutoRefreshActive (snd (toggleAutoRefresh None ms p)) = false
  /\ intervals (snd (toggleAutoRefresh None ms p)) = ∅.
Proof.
  cbv zeta. assert (H : consistent (run ops (initial (Callback := Callback) first_id))).
  { apply consistent_run. split; reflexivity. }
  set (p := run ops (initial first_id)) in *.
  unfold toggleAutoRefresh, isAutoRefreshActive.
  destruct (autoRefreshInterval p) as [id|] eqn:E; cbn [fst snd].
  - destruct (stop_inactive p H) as [Hint [Hi _]]. rewrite Hint. repeat split. exact Hi.
  - unfold consistent in H. rewrite E in H. destruct H as [Hc Hi]. rewrite Hc.
    cbn [fst snd]. rewrite E. repeat split. exact Hi.
Qed.

End Refresh.
End AutoRefreshFacts.

Module DebounceFacts.
Import Debounce.
#[local] Open Scope list_scope.

Section Debounced.
Context {Args : Type}.
Implicit Types (s : State Args) (ops : list (Op Args)).

Lemma pending_empty s :
  consistent s ->
  match timerId s with Some id => delete id (timeouts s) | None => timeouts s end = ∅.
Proof.
  unfold consistent. destruct (timerId s) as [id|].
  - intros [args H]. rewrite H. apply delete_singleton_eq.
  - tauto.
Qed.

Lemma debounce_consistent_step s (op : Op Args) : consistent s -> consistent (step s op).
Proof.
  intros H. pose proof (pending_empty s H) as Hp.
  destruct op as [args | | id]; cbn [step].
  - unfold consistent, debounced. cbn [timerId timeouts]. rewrite Hp.
    exists args. reflexivity.
  - unfold cancel. destruct (timerId s) as [id|] eqn:E; [|exact H].
    unfold consistent. cbn [timerId timeouts]. exact Hp.
  - unfold fire. destruct (timeouts s !! id) as [args|] eqn:E; [|exact H].
    unfold consistent in *. cbn [timerId timeouts].
    destruct (timerId s) as [id'|].
    + destruct H as [args' H]. rewrite H in E |- *.
      apply lookup_singleton_Some in E. destruct E as [-> _].
      apply delete_singleton_eq.
    + rewrite H in E. rewrite lookup_empty in E. discriminate.
Qed.

Lemma debounce_consistent_run ops s : consistent s -> consistent (run ops s).
Proof.
  revert s. induction ops as [|op ops IH]; intros s H; [exact H|].
  apply IH, debounce_consistent_step, H.
Qed.

Lemma reachable_consistent ops (first_id : nat) :
  consistent (run ops (initial (Args := Args) first_id)).
Proof. apply debounce_consistent_run. reflexivity. Qed.

(** X21: at most one invocation is pending. *)
Theorem one_pending_timeout ops (first_id : nat) :
  let s := run ops (initial first_id) in
  consistent s /\ size (timeouts s) = match timerId s with Some _ => 1 | None => 0 end.
Proof.
  cbv zeta. pose proof (reachable_consistent ops first_id) as H.
  split; [exact H|]. unfold consistent in H.
  destruct (timerId _) as [id|].
  - destruct H as [args H]. rewrite H. apply map_size_singleton.
  - rewrite H. apply map_size_empty.
Qed.

Lemma burst_state (calls : list Args) (last : Args) s :
  consistent s ->
  exists id,
    let s' := fold_left (fun s args => debounced args s) (calls ++ [last]) s in
    timerId s' = Some id /\ timeouts s' = {[ id := last ]} /\ applied s' = applied s.
Proof.
  revert s. induction calls as [|args calls IH]; intros s H.
  - exists (next_id s). cbn [app fold_left]. unfold debounced.
    cbn [timerId timeouts applied]. rewrite (pending_empty s H). repeat split.
  - cbn [app fold_left].
    destruct (IH (debounced args s) (debounce_consistent_step s (Call args) H)) as [id Hid].
    exists id. exact Hid.
Qed.

(** X22: a burst of calls leads to one application, with the arguments of
    the last call. *)
Theorem burst_applies_last_once ops (first_id : nat) (calls : list Args) (last : Args) :
  let s := run ops (initial first_id) in
  let s' := fold_left (fun s args => debounced args s) (calls ++ [last]) s in
  exists id,
    timerId s' = Some id
    /\ applied s' = applied s
    /\ applied (fire id s') = applied s ++ [last]
    /\ timeouts (fire id s') = ∅
    /\ forall id', fire id' (fire id s') = fire id s'.
Proof.
  cbv zeta. destruct (burst_state calls last _ (reachable_consistent ops first_id))
    as [id [Ht [Hto Ha]]].
  cbv zeta in Ht, Hto, Ha. exists id. split; [exact Ht|]. split; [exact Ha|].
  set (s' := fold_left _ _ _) in *.
  assert (Hfire : fire id s'
                  = {| timerId := None; timeouts := ∅; next_id := next_id s';
                       applied := applied (run ops (initial first_id)) ++ [last] |}).
  { unfold fire. rewrite Hto, lookup_singleton_eq, delete_singleton_eq, Ha. reflexivity. }
  rewrite Hfire. cbn [applied timeouts]. split; [reflexivity|]. split; [reflexivity|].
  intros id'. unfold fire. cbn [timeouts]. rewrite lookup_empty. reflexivity.
Qed.

(** X23: after [cancel] nothing is applied. *)
Theorem cancel_drops_pending ops (first_id id : nat) :
  let s := run ops (initial first_id) in
  fire id (cancel s) = cancel s /\ applied (cancel s) = applied s.
Proof.
  cbv zeta. pose proof (reachable_consistent ops first_id) as H.
  pose proof (pending_empty _ H) as Hp.
  set (s := run ops (initial first_id)) in *.
  unfold fire, cancel. destruct (timerId s) as [id'|]; cbn [timeouts applied].
  - rewrite Hp, lookup_empty. split; reflexivity.
  - rewrite Hp, lookup_empty. split; reflexivity.
Qed.

End Debounced.
End DebounceFacts.

Module ThemeFacts.
Import Theme.
#[local] Open Scope list_scope.

Lemma applyTheme_in_sync (theme : string) (p : Page) : in_sync (applyTheme theme p).
Proof.
  exists theme. unfold applyTheme. cbn [data_theme localStorage theme_toggle].
  split; [reflexivity|]. split; [apply lookup_insert_eq|].
  intros btn H. destruct (theme_toggle p); [|discriminate].
  injection H as <-. reflexivity.
Qed.

(** X24: every entry point leaves attribute, storage and button in agreement. *)
Theorem theme_in_sync (prefers_dark : bool) (p : Page) :
  in_sync (toggleTheme p) /\ in_sync (initTheme prefers_dark p).
Proof.
  split.
  - apply applyTheme_in_sync.
  - unfold initTheme. destruct (localStorage (injectThemeToggle p) !! THEME_KEY) as [s|].
    + destruct (negb (String.eqb s "")); [|destruct prefers_dark];
        apply applyTheme_in_sync.
    + destruct prefers_dark; apply applyTheme_in_sync.
Qed.

Lemma applyTheme_twice (t1 t2 : string) (p : Page) :
  applyTheme t2 (applyTheme t1 p) = applyTheme t2 p.
Proof.
  unfold applyTheme. cbn [data_theme localStorage theme_toggle navbar].
  rewrite insert_insert_eq. destruct (theme_toggle p); reflexivity.
Qed.

Lemma stored_or_applied (fallback theme : string) (p : Page) :
  stored_or fallback (applyTheme theme p)
  = if String.eqb theme "" then fallback else theme.
Proof. unfold stored_or, applyTheme. cbn [localStorage]. rewrite lookup_insert_eq. reflexivity. Qed.

Lemma toggleTheme_applied (theme : string) (p : Page) :
  toggleTheme (applyTheme theme p)
  = applyTheme
      (if String.eqb (if String.eqb theme "" then "light" else theme) "dark"
       then "light" else "dark") p.
Proof. unfold toggleTheme. rewrite stored_or_applied, applyTheme_twice. reflexivity. Qed.

(** X25: toggling twice brings a dark or light page back. *)
Theorem toggleTheme_twice (theme : string) (p : Page) :
  theme = "dark" \/ theme = "light" ->
  toggleTheme (toggleTheme (applyTheme theme p)) = applyTheme theme p.
Proof.
  intros [-> | ->]; rewrite !toggleTheme_applied; reflexivity.
Qed.

Lemma toggleTheme_twice_witness :
  toggleTheme (toggleTheme (applyTheme "dark" (mkPage None ∅ None true)))
  = applyTheme "dark" (mkPage None ∅ None true).
Proof.
  exact (toggleTheme_twice "dark" (mkPage None ∅ None true) (or_introl eq_refl)).
Defined.

(** X26: a stored choice wins over the OS preference, which decides only
    without one; other keys of [localStorage] are left alone. *)
Theorem initTheme_choice (prefers_dark : bool) (p : Page) :
  data_theme (initTheme prefers_dark p)
  = Some (stored_or (if prefers_dark then "dark" else "light") p)
  /\ forall key, key <> THEME_KEY ->
       localStorage (initTheme prefers_dark p) !! key = localStorage p !! key.
Proof.
  assert (Hls : localStorage (injectThemeToggle p) = localStorage p).
  { unfold injectThemeToggle. destruct (theme_toggle p); [reflexivity|].
    destruct (negb (navbar p)); reflexivity. }
  unfold initTheme, stored_or. rewrite Hls.
  destruct (localStorage p !! THEME_KEY) as [s|].
  - destruct (String.eqb s ""); cbn [negb]; [destruct prefers_dark|];
      (split; [reflexivity|]); intros key Hk; unfold applyTheme; cbn [localStorage];
      rewrite lookup_insert_ne, ?Hls by congruence; reflexivity.
  - destruct prefers_dark; (split; [reflexivity|]); intros key Hk;
      unfold applyTheme; cbn [localStorage];
      rewrite lookup_insert_ne, ?Hls by congruence; reflexivity.
Qed.

End ThemeFacts.

Module InstallPromptFacts.
Import InstallPrompt.
#[local] Open Scope list_scope.



End InstallPromptFacts.
